(** * EditForm: the field-name codec, entity mutator and validation engine

    A shallow embedding of [src/components/EditForm.tsx]: the function
    [validateValue] and the submit handler [handleSubmit] of the [EditForm]
    component, together with the pieces of the render function that produce
    the flat input names and maintain the list sizes and the checkbox state.

    Conventions of the embedding.
    - A JavaScript string is a [string] of code units below 256; [length]
      counts code units.
    - A JavaScript value is a [Value]; objects and arrays are property lists
      in creation order.  Inherited (prototype) properties, the [length]
      property of arrays and the integer-keys-first enumeration order of
      objects are not represented.  Values are trees: no two attributes
      share one object.  The module is strict code, so a property write on
      a primitive throws.
    - Numbers are integers ([Z]), with [None] for [NaN] where the code can
      produce it; the one place where the code parses a decimal fraction
      ([parseFloat] in the [Price] rule) uses exact rationals.
    - [handleSubmit] runs in a state monad over [World] (the working entity,
      the toasts shown, the console, the loading indicator and the timer
      queue) with early [return] and thrown exceptions as signals.  The
      entity is mutated in place by the code; the world carries its current
      contents. *)

From Stdlib Require Import String Ascii ZArith QArith Lia.
From Stdlib Require Import DecimalString DecimalNat.
From stdpp Require Import gmap strings list.

Open Scope string_scope.
Open Scope Z_scope.

(** ** JavaScript string primitives *)

Module JsString.

(** Code units of special characters. *)
Definition dquote : string := String "034"%char EmptyString.
Definition newline_char : ascii := "010"%char.
Definition newline : string := String newline_char EmptyString.
Definition underscore : ascii := "_"%char.

(** [s.split(c)] for a one-character separator [c]: never empty. *)
Fixpoint split_on (c : ascii) (s : string) : list string :=
  match s with
  | EmptyString => [EmptyString]
  | String a r =>
      if Ascii.eqb a c then EmptyString :: split_on c r
      else match split_on c r with
           | [] => [String a EmptyString]
           | h :: t => String a h :: t
           end
  end.

(** [l.join(sep)]. *)
Fixpoint join_with (sep : string) (l : list string) : string :=
  match l with
  | [] => EmptyString
  | [x] => x
  | x :: r => x ++ sep ++ join_with sep r
  end.

(** [s.includes(t)]. *)
Fixpoint includes (s t : string) : bool :=
  String.prefix t s ||
  match s with
  | EmptyString => false
  | String _ r => includes r t
  end.

(** Membership of a character in a string: [s.includes(c)] for one [c]. *)
Fixpoint has_char (c : ascii) (s : string) : bool :=
  match s with
  | EmptyString => false
  | String a r => Ascii.eqb a c || has_char c r
  end.

(** [StrWhiteSpaceChar] restricted to code units below 256: TAB, LF, VT, FF,
    CR, SP and NBSP.  The same set is the regular expression class [\s]. *)
Definition is_space (c : ascii) : bool :=
  let n := nat_of_ascii c in
  ((9 <=? n)%nat && (n <=? 13)%nat) || (n =? 32)%nat || (n =? 160)%nat.

Definition is_digit (c : ascii) : bool :=
  let n := nat_of_ascii c in (48 <=? n)%nat && (n <=? 57)%nat.

Definition digit_value (c : ascii) : Z := Z.of_nat (nat_of_ascii c) - 48.

Fixpoint drop_spaces (s : string) : string :=
  match s with
  | String a r => if is_space a then drop_spaces r else s
  | EmptyString => EmptyString
  end.

(** The string without its trailing white space. *)
Fixpoint drop_trailing_spaces (s : string) : string :=
  match s with
  | EmptyString => EmptyString
  | String a r =>
      match drop_trailing_spaces r with
      | EmptyString => if is_space a then EmptyString else String a EmptyString
      | r' => String a r'
      end
  end.

(** [s.trim()]. *)
Definition trim (s : string) : string := drop_trailing_spaces (drop_spaces s).

(** The longest prefix of decimal digits, and what follows it. *)
Fixpoint span_digits (s : string) : string * string :=
  match s with
  | String a r =>
      if is_digit a then let '(d, rest) := span_digits r in (String a d, rest)
      else (EmptyString, s)
  | EmptyString => (EmptyString, EmptyString)
  end.

(** Value of a digit string read left to right from an accumulator. *)
Fixpoint digits_value (s : string) (acc : Z) : Z :=
  match s with
  | EmptyString => acc
  | String a r => digits_value r (10 * acc + digit_value a)
  end.

(** [parseInt(s, 10)]: leading white space, an optional sign, then the
    longest run of digits; [None] is [NaN]. *)
Definition parseInt (s : string) : option Z :=
  let s1 := drop_spaces s in
  let '(neg, s2) :=
    match s1 with
    | String "-" r => (true, r)
    | String "+" r => (false, r)
    | _ => (false, s1)
    end in
  match fst (span_digits s2) with
  | EmptyString => None
  | ds => Some (if neg : bool then - digits_value ds 0 else digits_value ds 0)
  end.

(** [parseFloat(s)] on the strings the [Price] rule hands to it (digits with
    at most one dot, no sign, no exponent): integer digits, then optionally a
    dot and fraction digits; [None] is [NaN].  The value is the exact decimal;
    the comparisons the code makes with it (against 0 and 9999, both exactly
    representable, on inputs with at most two fraction digits) have the same
    outcome on the rounded double. *)
Definition parseFloat (s : string) : option Q :=
  let '(ip, rest) := span_digits (drop_spaces s) in
  let fp := match rest with
            | String "." r => fst (span_digits r)
            | _ => EmptyString
            end in
  match ip ++ fp with
  | EmptyString => None
  | ds => Some (Qmake (digits_value ds 0) (Z.to_pos (10 ^ Z.of_nat (String.length fp))))
  end.

(** [String(n)] / ["" + n] for a natural number. *)
Definition string_of_nat (n : nat) : string :=
  NilEmpty.string_of_uint (Nat.to_uint n).

(** [String(x)] for an integer or [NaN]: the property key of [obj[x]]. *)
Definition string_of_number (x : option Z) : string :=
  match x with
  | None => "NaN"
  | Some z => if z <? 0 then "-" ++ string_of_nat (Z.to_nat (- z))
              else string_of_nat (Z.to_nat z)
  end.

(** Number of digits in a string: [(s.match(/\d/g) || []).length]. *)
Fixpoint count_digits (s : string) : nat :=
  match s with
  | EmptyString => 0%nat
  | String a r => ((if is_digit a then 1 else 0) + count_digits r)%nat
  end.

(** A string of decimal digits only. *)
Definition all_digits (s : string) : Prop := span_digits s = (s, EmptyString).

End JsString.

(** ** Regular expressions of the validation rules

    Matching by derivatives over character classes. *)

Module Regex.

Inductive Re : Type :=
| Void
| Eps
| Class (p : ascii -> bool)
| Seq (r1 r2 : Re)
| Alt (r1 r2 : Re)
| Star (r : Re).

Fixpoint nullable (r : Re) : bool :=
  match r with
  | Void => false
  | Eps => true
  | Class _ => false
  | Seq r1 r2 => nullable r1 && nullable r2
  | Alt r1 r2 => nullable r1 || nullable r2
  | Star _ => true
  end.

Fixpoint deriv (c : ascii) (r : Re) : Re :=
  match r with
  | Void => Void
  | Eps => Void
  | Class p => if p c then Eps else Void
  | Seq r1 r2 =>
      if nullable r1 then Alt (Seq (deriv c r1) r2) (deriv c r2)
      else Seq (deriv c r1) r2
  | Alt r1 r2 => Alt (deriv c r1) (deriv c r2)
  | Star r1 => Seq (deriv c r1) (Star r1)
  end.

(** The whole string matches: a pattern anchored by [^] and [$]. *)
Fixpoint matches (r : Re) (s : string) : bool :=
  match s with
  | EmptyString => nullable r
  | String c s' => matches (deriv c r) s'
  end.

Definition any : Re := Class (fun _ => true).
Definition plus (r : Re) : Re := Seq r (Star r).
Definition opt (r : Re) : Re := Alt Eps r.
Definition lit (c : ascii) : Re := Class (Ascii.eqb c).

(** [re.test(s)] for a pattern without anchors: some substring matches. *)
Definition test (r : Re) (s : string) : bool :=
  matches (Seq (Star any) (Seq r (Star any))) s.

Definition non_space : Re := Class (fun c => negb (JsString.is_space c)).
Definition digit : Re := Class JsString.is_digit.

(** [/\S+@\S+\.\S+/] *)
Definition email_re : Re :=
  Seq (plus non_space) (Seq (lit "@") (Seq (plus non_space) (Seq (lit ".") (plus non_space)))).

(** [/^[a-z0-9_]+$/] *)
Definition username_class (c : ascii) : bool :=
  let n := nat_of_ascii c in
  ((97 <=? n)%nat && (n <=? 122)%nat) || JsString.is_digit c || Ascii.eqb c "_".
Definition username_re : Re := plus (Class username_class).

(** [/^\d*\.?\d*$/] *)
Definition decimal_re : Re := Seq (Star digit) (Seq (opt (lit ".")) (Star digit)).

End Regex.

(** ** JavaScript values *)

#[local] Set Warnings "-register-all".

(** Values are trees: an object is held at one place only, and a write
    into a nested object gives the place a new value.  Two places that hold
    one and the same object, as the code can have them, are not
    represented. *)
Inductive Value : Type :=
| VUndefined
| VNull
| VBool (b : bool)
| VNum (n : Z)
| VStr (s : string)
| VObj (is_array : bool) (props : list (string * Value)).

Definition Props : Type := list (string * Value).

Definition empty_object : Value := VObj false [].
Definition empty_array : Value := VObj true [].

(** [!!v] *)
Definition truthy (v : Value) : bool :=
  match v with
  | VUndefined | VNull => false
  | VBool b => b
  | VNum n => negb (n =? 0)
  | VStr s => negb (String.eqb s "")
  | VObj _ _ => true
  end.

(** [typeof v === 'object'] *)
Definition typeof_object (v : Value) : bool :=
  match v with
  | VNull | VObj _ _ => true
  | _ => false
  end.

(** [Array.isArray(v)] *)
Definition isArray (v : Value) : bool :=
  match v with
  | VObj true _ => true
  | _ => false
  end.

(** Own property lookup in a property list; absent is [undefined]. *)
Fixpoint lookup_prop (k : string) (ps : Props) : Value :=
  match ps with
  | [] => VUndefined
  | (k', v) :: r => if String.eqb k k' then v else lookup_prop k r
  end.

(** [k in obj] on a property list. *)
Fixpoint has_prop (k : string) (ps : Props) : bool :=
  match ps with
  | [] => false
  | (k', _) :: r => String.eqb k k' || has_prop k r
  end.

(** [obj[k] = v] on a property list: overwrite in place or create last. *)
Fixpoint assign_prop (k : string) (v : Value) (ps : Props) : Props :=
  match ps with
  | [] => [(k, v)]
  | (k', v') :: r =>
      if String.eqb k k' then (k, v) :: r else (k', v') :: assign_prop k v r
  end.

(** [v[k]]: [None] when the read throws a [TypeError] ([v] is [undefined]
    or [null]).  A string has its code units as index properties. *)
Definition get_prop (v : Value) (k : string) : option Value :=
  match v with
  | VUndefined | VNull => None
  | VObj _ ps => Some (lookup_prop k ps)
  | VStr s =>
      match JsString.parseInt k with
      | Some i =>
          if (0 <=? i) && String.eqb (JsString.string_of_number (Some i)) k
          then match String.get (Z.to_nat i) s with
               | Some c => Some (VStr (String c EmptyString))
               | None => Some VUndefined
               end
          else Some VUndefined
      | None => Some VUndefined
      end
  | VBool _ | VNum _ => Some VUndefined
  end.

(** [v[k] = x]: [None] when the write throws a [TypeError]: [v] is
    [undefined] or [null], or a primitive (module code is strict). *)
Definition set_prop (v : Value) (k : string) (x : Value) : option Value :=
  match v with
  | VObj a ps => Some (VObj a (assign_prop k x ps))
  | _ => None
  end.

(** An array literal from a list of values. *)
Definition array_of_list (l : list Value) : Value :=
  VObj true (imap (fun i v => (JsString.string_of_nat i, v)) l).

(** ** Effects of the component *)

Inductive Exn : Type :=
| TypeError
| HandlerError (msg : string).

Inductive Toast : Type :=
| ToastError (msg : string)
| ToastSuccess (msg : string).

Inductive LogItem : Type :=
| LogValues (vs : list Value)
| LogExn (e : Exn).

(** The caller-supplied [onSubmitSuccess], by its outcome: it returns or
    throws.  What else a handler does (logging, changing the entity it is
    given) is the caller's and is not represented. *)
Inductive HandlerResult : Type :=
| Returned
| Threw (msg : string).

Definition Handler : Type := Value -> HandlerResult.

(** A callback queued by [setTimeout]: the only one the component queues is
    the success callback of [handleSubmit], which closes over the handler. *)
Record Timer : Type := mkTimer {
  timer_delay : nat;
  timer_handler : Handler
}.

Record World : Type := mkWorld {
  entity : Props;
  toasts : list Toast;
  console : list LogItem;
  loading : bool;
  timers : list Timer
}.

Definition with_entity (e : Props) (w : World) : World :=
  mkWorld e (toasts w) (console w) (loading w) (timers w).
Definition with_toast (t : Toast) (w : World) : World :=
  mkWorld (entity w) (toasts w ++ [t]) (console w) (loading w) (timers w).
Definition with_log (l : LogItem) (w : World) : World :=
  mkWorld (entity w) (toasts w) (console w ++ [l]) (loading w) (timers w).
Definition with_loading (b : bool) (w : World) : World :=
  mkWorld (entity w) (toasts w) (console w) b (timers w).
Definition with_timer (t : Timer) (w : World) : World :=
  mkWorld (entity w) (toasts w) (console w) (loading w) (timers w ++ [t]).

(** How a piece of [handleSubmit] ends: it falls through with a value, it
    executes [return], or it throws. *)
Inductive Signal (A : Type) : Type :=
| Next (a : A)
| Stop
| Raise (e : Exn).
Arguments Next {A} a.
Arguments Stop {A}.
Arguments Raise {A} e.

Definition Sub (A : Type) : Type := World -> Signal A * World.

Definition ret {A} (a : A) : Sub A := fun w => (Next a, w).

Definition bind {A B} (m : Sub A) (k : A -> Sub B) : Sub B :=
  fun w =>
    match m w with
    | (Next a, w') => k a w'
    | (Stop, w') => (Stop, w')
    | (Raise e, w') => (Raise e, w')
    end.

Notation "x <- m ;; k" := (bind m (fun x => k))
  (at level 90, m at next level, right associativity).
Notation "m ;;; k" := (bind m (fun _ => k))
  (at level 90, right associativity).

(** [return;] *)
Definition stop {A} : Sub A := fun w => (Stop, w).
(** [throw e] *)
Definition raise {A} (e : Exn) : Sub A := fun w => (Raise e, w).
(** An operation that throws a [TypeError] when it has no result. *)
Definition lift_js {A} (o : option A) : Sub A :=
  match o with
  | Some a => ret a
  | None => raise TypeError
  end.

Definition toast_error (msg : string) : Sub unit :=
  fun w => (Next tt, with_toast (ToastError msg) w).
Definition toast_success (msg : string) : Sub unit :=
  fun w => (Next tt, with_toast (ToastSuccess msg) w).
Definition console_log (l : LogItem) : Sub unit :=
  fun w => (Next tt, with_log l w).
Definition showLoading : Sub unit := fun w => (Next tt, with_loading true w).
Definition hideLoading : Sub unit := fun w => (Next tt, with_loading false w).
Definition setTimeout (h : Handler) (delay : nat) : Sub unit :=
  fun w => (Next tt, with_timer (mkTimer delay h) w).

(** [entity[a]] *)
Definition read_attr (a : string) : Sub Value :=
  fun w => (Next (lookup_prop a (entity w)), w).
(** [entity[a] = v] *)
Definition write_attr (a : string) (v : Value) : Sub unit :=
  fun w => (Next tt, with_entity (assign_prop a v (entity w)) w).

(** [for (const x of l) body(x)] *)
Fixpoint for_each {A} (body : A -> Sub unit) (l : list A) : Sub unit :=
  match l with
  | [] => ret tt
  | x :: r => body x ;;; for_each body r
  end.

(** [try { body } catch (error) { handler(error) }] *)
Definition try_catch (body : Sub unit) (handler : Exn -> Sub unit) : Sub unit :=
  fun w =>
    match body w with
    | (Raise e, w') => handler e w'
    | r => r
    end.

(** ** The validation rules: [validateValue] *)

Inductive ValidationType : Type :=
| Email
| PhoneNumber
| UserName
| CheckboxChecked
| RequiredField
| TextLengthBelow30
| TextLengthBelow50
| TextLengthBelow100
| TextLengthBelow200
| TextLengthBelow300
| TextLengthBelow400
| Number
| Price.

Definition error_for (attributeName : string) : string :=
  "Error for " ++ JsString.dquote ++ attributeName ++ JsString.dquote
  ++ JsString.newline ++ JsString.newline.

(** The six [TextLengthBelowN] cases differ only in [N]. *)
Definition text_length_below (n : nat) (value : Value) (attributeName : string)
  : Sub bool :=
  if negb (truthy value) then ret true
  else match value with
       | VStr s =>
           if (n <? String.length s)%nat then
             toast_error (error_for attributeName ++ "Needs to be shorter than "
                          ++ JsString.string_of_nat n ++ " characters") ;;;
             ret false
           else ret true
       | _ => ret true
       end.

Definition invalid_number_msg (attributeName : string) : string :=
  attributeName ++ " is invalid. Please enter a valid number with only digits or a decimal.".

Definition validateValue (value : Value) (attributeName : string)
    (validationType : ValidationType) : Sub bool :=
  match validationType with
  | Email =>
      match value with
      | VStr s =>
          if (100 <? String.length s)%nat || negb (Regex.test Regex.email_re s) then
            toast_error (error_for attributeName ++ "Email format is invalid.") ;;;
            ret false
          else ret true
      | _ => ret true
      end
  | PhoneNumber =>
      match value with
      | VStr s =>
          if truthy value then
            let digits := JsString.count_digits s in
            if (digits =? 0)%nat || negb ((digits =? 10)%nat || (digits =? 11)%nat) then
              toast_error (error_for attributeName ++ "Phone number format is invalid.") ;;;
              ret false
            else ret true
          else ret true
      | _ => ret true
      end
  | UserName =>
      match value with
      | VStr s =>
          if negb (Regex.matches Regex.username_re s) then
            toast_error ("User name can only contain " ++ JsString.dquote ++ "a~z"
                         ++ JsString.dquote ++ ", number and " ++ JsString.dquote
                         ++ "_" ++ JsString.dquote ++ ".") ;;;
            ret false
          else ret true
      | _ => toast_error "Invalid User name" ;;; ret false
      end
  | CheckboxChecked =>
      if negb (truthy value) then
        toast_error (error_for attributeName ++ "Please check the box.") ;;;
        ret false
      else ret true
  | RequiredField =>
      if negb (truthy value)
         || match value with
            | VStr s => String.eqb (JsString.trim s) ""
            | _ => false
            end
      then toast_error (attributeName ++ " is required!") ;;; ret false
      else ret true
  | TextLengthBelow30 => text_length_below 30 value attributeName
  | TextLengthBelow50 => text_length_below 50 value attributeName
  | TextLengthBelow100 => text_length_below 100 value attributeName
  | TextLengthBelow200 => text_length_below 200 value attributeName
  | TextLengthBelow300 => text_length_below 300 value attributeName
  | TextLengthBelow400 => text_length_below 400 value attributeName
  | Price =>
      match value with
      | VStr s =>
          if truthy value then
            if (100 <? String.length s)%nat || negb (Regex.matches Regex.decimal_re s) then
              toast_error (invalid_number_msg attributeName) ;;; ret false
            else
              let parts := JsString.split_on "." s in
              if match parts !! 1%nat with
                 | Some p => negb (String.eqb p "") && (2 <? String.length p)%nat
                 | None => false
                 end
              then toast_error (invalid_number_msg attributeName) ;;; ret false
              else
                match JsString.parseFloat s with
                | Some price =>
                    if Qle_bool price 0 || negb (Qle_bool price 9999) then
                      toast_error (error_for attributeName
                                   ++ "Please enter a number between 0-9999") ;;;
                      ret false
                    else ret true
                | None => ret true
                end
          else ret true
      | _ => ret true
      end
  | Number =>
      match value with
      | VStr s =>
          if truthy value then
            if (10 <? String.length s)%nat || negb (Regex.matches Regex.decimal_re s) then
              toast_error (attributeName ++ " is invalid. Please enter a valid number") ;;;
              ret false
            else
              match JsString.parseInt s with
              | Some number =>
                  if (number <=? 0) || (999 <? number) then
                    toast_error (error_for attributeName
                                 ++ "Please enter a number between 0-999") ;;;
                    ret false
                  else ret true
              | None => ret true
              end
          else ret true
      | _ => ret true
      end
  end.

(** ** The form: descriptors, controls and component state *)

Inductive EditEntryType : Type :=
| Text | TextList | DoubleTextList | TextArea | File | Address | Photo
| ProfilePhoto | FilePhoto | Radio | Checkbox | Article | Date | Select
| Showcase | PillList.

Definition EditEntryType_eqb (a b : EditEntryType) : bool :=
  match a, b with
  | Text, Text | TextList, TextList | DoubleTextList, DoubleTextList
  | TextArea, TextArea | File, File | Address, Address | Photo, Photo
  | ProfilePhoto, ProfilePhoto | FilePhoto, FilePhoto | Radio, Radio
  | Checkbox, Checkbox | Article, Article | Date, Date | Select, Select
  | Showcase, Showcase | PillList, PillList => true
  | _, _ => false
  end.

(** [interface EditEntry]; the presentation-only fields are left out.  An
    absent [extraParam] is [VUndefined]. *)
Record EditEntry : Type := mkEditEntry {
  attribute : string;
  attributeName : string;
  type : EditEntryType;
  isRequired : bool;
  validations : option (list ValidationType);
  extraParam : Value;
  condition : option bool
}.

(** A control of the submitted form, as [handleSubmit] reads it. *)
Record FormElement : Type := mkFormElement {
  target_name : string;
  target_value : string;
  target_is_radio : bool;
  target_checked : bool
}.

(** The props and React state [handleSubmit] closes over. *)
Record FormState : Type := mkFormState {
  editEntries : list EditEntry;
  listFieldSize : list nat;
  checkboxFieldValue : bool;
  uploadPhotoMap : list (string * string);
  onSubmitSuccess : option Handler
}.

(** [new Set(props.editEntries.map(e => e.attribute))] *)
Definition updateTargets (entries : list EditEntry) : gset string :=
  list_to_set (attribute <$> entries).

(** [Object.fromEntries(pairs)]: a later pair overrides an earlier one. *)
Definition fromEntries (pairs : list (string * nat)) : gmap string nat :=
  foldl (fun m kv => <[kv.1 := kv.2]> m) ∅ pairs.

(** [Object.fromEntries(props.editEntries.map((e, index) => [e.attribute, index]))] *)
Definition editEntryIdx (entries : list EditEntry) : gmap string nat :=
  fromEntries (imap (fun index e => (attribute e, index)) entries).

(** [listFieldSize[editEntryIdx[field]]]; [None] is [undefined]. *)
Definition max_idx_of (st : FormState) (field : string) : option nat :=
  match editEntryIdx (editEntries st) !! field with
  | Some i => listFieldSize st !! i
  | None => None
  end.

(** ** The field-name codec *)

(** What a flat name stands for.  An index is a JavaScript number: an
    integer, or [None] for [NaN]. *)
Inductive Path : Type :=
| PathAttr (attr : string)
| PathSub (attr subfield : string)
| PathListSingle (attr : string) (index : option Z)
| PathListDouble (attr : string) (index : option Z) (paired : string).

Definition path_attr (p : Path) : string :=
  match p with
  | PathAttr a | PathSub a _ | PathListSingle a _ | PathListDouble a _ _ => a
  end.

(** The names the render function gives to the controls: the attribute
    itself, [attribute + "_" + subfield] (Article, Address, Showcase),
    [attribute + "_listfieldsingleidx_" + i] (TextList) and
    [attribute + "_listfieldidx_" + i + "_0"] / ["_1"] (DoubleTextList). *)
Definition encode_name (p : Path) : string :=
  match p with
  | PathAttr a => a
  | PathSub a sub => a ++ "_" ++ sub
  | PathListSingle a i => a ++ "_listfieldsingleidx_" ++ JsString.string_of_number i
  | PathListDouble a i k =>
      a ++ "_listfieldidx_" ++ JsString.string_of_number i ++ "_" ++ k
  end.

(** [parseInt(parts[1], 10)], where [parts[1]] may be [undefined]. *)
Definition parse_index (part : option string) : option Z :=
  match part with
  | Some s => JsString.parseInt s
  | None => None
  end.

(** The case analysis [handleSubmit] makes on the text after the first
    underscore of a control name. *)
Definition decode_sub_field (entity_field entity_sub_field : string) : Path :=
  if JsString.includes entity_sub_field "listfieldidx_" then
    let entity_curr_idx :=
      parse_index (JsString.split_on "_" entity_sub_field !! 1%nat) in
    let entity_sub_sub_field :=
      JsString.join_with "_" (drop 2 (JsString.split_on "_" entity_sub_field)) in
    PathListDouble entity_field entity_curr_idx entity_sub_sub_field
  else if JsString.includes entity_sub_field "listfieldsingleidx_" then
    let entity_curr_idx :=
      parse_index (JsString.split_on "_" entity_sub_field !! 1%nat) in
    PathListSingle entity_field entity_curr_idx
  else PathSub entity_field entity_sub_field.

(** The case analysis [handleSubmit] makes on a control name: which entity
    location, if any, the name denotes. *)
Definition decode_name (known : gset string) (name : string) : option Path :=
  if bool_decide (name ∈ known) then Some (PathAttr name)
  else if JsString.includes name "_"
          && bool_decide (hd "" (JsString.split_on "_" name) ∈ known) then
    let entity_field := hd "" (JsString.split_on "_" name) in
    let entity_sub_field :=
      JsString.join_with "_" (drop 1 (JsString.split_on "_" name)) in
    Some (decode_sub_field entity_field entity_sub_field)
  else None.

(** ** Writing into the working entity *)

(** [entity[f][k]] *)
Definition read_attr2 (f k : string) : Sub Value :=
  o <- read_attr f ;; lift_js (get_prop o k).

(** [entity[f][k] = v]: the attribute [f] gets the object with [k]
    written (values are trees, see above). *)
Definition write_attr2 (f k : string) (v : Value) : Sub unit :=
  o <- read_attr f ;;
  o' <- lift_js (set_prop o k v) ;;
  write_attr f o'.

(** [entity[f][k][k2] = v] *)
Definition write_attr3 (f k k2 : string) (v : Value) : Sub unit :=
  o <- read_attr f ;;
  inner <- lift_js (get_prop o k) ;;
  inner' <- lift_js (set_prop inner k2 v) ;;
  o' <- lift_js (set_prop o k inner') ;;
  write_attr f o'.

(** [if (!entity[f]) entity[f] = init] *)
Definition ensure_attr (f : string) (init : Value) : Sub unit :=
  cur <- read_attr f ;;
  if truthy cur then ret tt else write_attr f init.

(** [idx >= max] on JavaScript numbers: false when either side is [NaN]
    or [undefined]. *)
Definition js_ge (idx : option Z) (max : option nat) : bool :=
  match idx, max with
  | Some i, Some m => Z.of_nat m <=? i
  | _, _ => false
  end.

(** [value.split("\n").filter(e => !!e)] as an array of strings. *)
Definition split_lines (value : string) : Value :=
  array_of_list
    (map VStr (filter (fun e => e ≠ "") (JsString.split_on JsString.newline_char value))).

(** [console.log(entity[entity_field], entity['badges'], entity)] *)
Definition log_list_write (entity_field : string) : Sub unit :=
  fun w =>
    console_log (LogValues [lookup_prop entity_field (entity w);
                            lookup_prop "badges" (entity w);
                            VObj false (entity w)]) w.

(** The body of the loop over the form controls. *)
Definition raw_step (st : FormState) (target : FormElement) : Sub unit :=
  if String.eqb (target_name target) "" then ret tt
  else
    match decode_name (updateTargets (editEntries st)) (target_name target) with
    | Some (PathAttr field) =>
        if target_is_radio target && negb (target_checked target) then ret tt
        else write_attr field (VStr (target_value target))
    | Some (PathListDouble entity_field entity_curr_idx entity_sub_sub_field) =>
        let max_idx_to_take := max_idx_of st entity_field in
        if js_ge entity_curr_idx max_idx_to_take then ret tt
        else
          let key := JsString.string_of_number entity_curr_idx in
          ensure_attr entity_field empty_array ;;;
          row <- read_attr2 entity_field key ;;
          (if truthy row then ret tt else write_attr2 entity_field key empty_object) ;;;
          write_attr3 entity_field key entity_sub_sub_field (VStr (target_value target))
    | Some (PathListSingle entity_field entity_curr_idx) =>
        let max_idx_to_take := default 0%nat (max_idx_of st entity_field) in
        if js_ge entity_curr_idx (Some max_idx_to_take) then ret tt
        else
          let key := JsString.string_of_number entity_curr_idx in
          ensure_attr entity_field empty_array ;;;
          row <- read_attr2 entity_field key ;;
          (if truthy row then ret tt else write_attr2 entity_field key empty_object) ;;;
          write_attr2 entity_field key (VStr (target_value target)) ;;;
          log_list_write entity_field
    | Some (PathSub entity_field entity_sub_field) =>
        ensure_attr entity_field empty_object ;;;
        if JsString.includes (target_value target) JsString.newline
           || (String.eqb entity_sub_field "content"
               && truthy (VStr (target_value target)))
        then write_attr2 entity_field entity_sub_field (split_lines (target_value target))
        else write_attr2 entity_field entity_sub_field (VStr (target_value target))
    | None => ret tt
    end.

(** The body of the loop over [Object.entries(uploadPhotoMap)]. *)
Definition upload_step (st : FormState) (upload : string * string) : Sub unit :=
  let target_name := upload.1 in
  let target_value := upload.2 in
  let known := updateTargets (editEntries st) in
  if bool_decide (target_name ∈ known) then write_attr target_name (VStr target_value)
  else if JsString.includes target_name "_"
          && bool_decide (hd "" (JsString.split_on "_" target_name) ∈ known) then
    let entity_field := hd "" (JsString.split_on "_" target_name) in
    let entity_sub_field :=
      JsString.join_with "_" (drop 1 (JsString.split_on "_" target_name)) in
    ensure_attr entity_field empty_object ;;;
    write_attr2 entity_field entity_sub_field (VStr target_value)
  else ret tt.

(** ** The per-descriptor checks of [handleSubmit] *)

(** Number of truthy values: [[...].filter(e => e).length]. *)
Definition count_truthy (vs : list Value) : nat := length (List.filter truthy vs).

(** The filter of the list pruning step on one [[k, v]] entry. *)
Definition keep_entry (max_idx_to_take : nat) (kv : string * Value) : bool :=
  match JsString.parseInt kv.1 with
  | Some idx =>
      (idx <? Z.of_nat max_idx_to_take) && truthy kv.2 && typeof_object kv.2
      && match kv.2 with
         | VObj _ ps => has_prop "0" ps && has_prop "1" ps
         | _ => false
         end
  | None => false
  end.

(** [Object.entries(v)] of an object or array. *)
Definition object_entries (v : Value) : Props :=
  match v with
  | VObj _ ps => ps
  | _ => []
  end.

(** The list pruning step for one descriptor. *)
Definition prune_list (st : FormState) (editEntry : EditEntry) : Sub unit :=
  match max_idx_of st (attribute editEntry) with
  | Some max_idx_to_take =>
      if (0 <? max_idx_to_take)%nat then
        cur <- read_attr (attribute editEntry) ;;
        (if negb (truthy cur) || negb (typeof_object cur)
         then write_attr (attribute editEntry) empty_object else ret tt) ;;;
        cur' <- read_attr (attribute editEntry) ;;
        write_attr (attribute editEntry)
          (VObj false (List.filter (keep_entry max_idx_to_take) (object_entries cur')))
      else ret tt
  | None => ret tt
  end.

(** The Article completeness check. *)
Definition check_article (editEntry : EditEntry) : Sub unit :=
  article <- read_attr (attribute editEntry) ;;
  title <- lift_js (get_prop article "title") ;;
  content <- lift_js (get_prop article "content") ;;
  image_url <- lift_js (get_prop article "image_url") ;;
  subtitle <- lift_js (get_prop article "subtitle") ;;
  button_link <- lift_js (get_prop article "button_link") ;;
  let filledCount := count_truthy [title; content; image_url; subtitle; button_link] in
  let mandatoryFilledCount := count_truthy [title; content; image_url] in
  if (0 <? filledCount)%nat && (mandatoryFilledCount <? 3)%nat then
    console_log (LogValues [VNum (Z.of_nat filledCount); VNum (Z.of_nat mandatoryFilledCount);
                            title; content; image_url]) ;;;
    toast_error ("Title, Content, and Photo are required for "
                 ++ attributeName editEntry ++ ".") ;;;
    stop
  else if negb (truthy title) && negb (truthy content) then
    write_attr (attribute editEntry) empty_object
  else ret tt.

(** The loop over the declared validation rules of one descriptor. *)
Fixpoint run_validations (editEntry : EditEntry) (rules : list ValidationType)
  : Sub unit :=
  match rules with
  | [] => ret tt
  | validation :: rest =>
      value <- read_attr (attribute editEntry) ;;
      ok <- validateValue value (attributeName editEntry) validation ;;
      if ok : bool then run_validations editEntry rest else stop
  end.

(** [String(v)]; the elements of an array are joined with commas, [null]
    and [undefined] elements as empty strings. *)
Fixpoint js_String (v : Value) : string :=
  match v with
  | VUndefined => "undefined"
  | VNull => "null"
  | VBool b => if b then "true" else "false"
  | VNum n => JsString.string_of_number (Some n)
  | VStr s => s
  | VObj false _ => "[object Object]"
  | VObj true ps =>
      JsString.join_with ","
        ((fix elements (l : list (string * Value)) : list string :=
            match l with
            | [] => []
            | (_, x) :: r =>
                match x with
                | VUndefined | VNull => ""
                | _ => js_String x
                end :: elements r
            end) ps)
  end.

(** [Number(s)] on a string, for integers written in decimal; [None] is
    [NaN].  White space around the text is dropped and the empty text is 0;
    then come an optional sign, digits, and optionally a point followed by
    zeros only, with at least one digit in all.  Numbers are integers
    here: text with a fraction other than zeros, an exponent, a radix
    prefix or [Infinity] is not represented and is given as [NaN]. *)
Definition number_of_string (s : string) : option Z :=
  let t := JsString.trim s in
  if String.eqb t "" then Some 0
  else
    let '(neg, u) :=
      match t with
      | String "-" r => (true, r)
      | String "+" r => (false, r)
      | _ => (false, t)
      end in
    let '(ip, rest) := JsString.span_digits u in
    let fraction :=
      match rest with
      | EmptyString => Some EmptyString
      | String "." r =>
          let '(fp, rest') := JsString.span_digits r in
          if String.eqb rest' "" then Some fp else None
      | _ => None
      end in
    match fraction with
    | Some fp =>
        if String.eqb (ip ++ fp) "" then None
        else if JsString.digits_value fp 0 =? 0
             then Some (if neg : bool then - JsString.digits_value ip 0
                        else JsString.digits_value ip 0)
             else None
    | None => None
    end.

(** [Number(v)] on the value an [extraParam] field holds: [None] is [NaN].
    An array converts as its text does, any other object to [NaN]. *)
Definition to_number (v : Value) : option Z :=
  match v with
  | VUndefined => None
  | VNull => Some 0
  | VBool b => Some (if b then 1 else 0)
  | VNum n => Some n
  | VStr s => number_of_string s
  | VObj true _ => number_of_string (js_String v)
  | VObj false _ => None
  end.

(** The field of an [extraParam] object, when it is present. *)
Definition extra_field (extra : Value) (k : string) : option Value :=
  match extra with
  | VObj _ ps => if has_prop k ps then Some (lookup_prop k ps) else None
  | _ => None
  end.

(** An entry of [image_urls] that counts as a photo. *)
Definition is_live_photo (image_url : Value) : bool :=
  truthy image_url && typeof_object image_url
  && match image_url with
     | VObj _ ps =>
         has_prop "state" ps
         && negb match lookup_prop "state" ps with
                 | VStr s => String.eqb s "deleted"
                 | _ => false
                 end
     | _ => false
     end.

Definition count_photos (showcase : Value) : nat :=
  match showcase with
  | VObj _ ps =>
      if has_prop "image_urls" ps && isArray (lookup_prop "image_urls" ps)
      then length (List.filter is_live_photo
                     (map snd (object_entries (lookup_prop "image_urls" ps))))
      else 0%nat
  | _ => 0%nat
  end.

(** The Showcase completeness check. *)
Definition check_showcase (editEntry : EditEntry) : Sub unit :=
  showcase <- read_attr (attribute editEntry) ;;
  let isInstagramShowcase :=
    match extra_field (extraParam editEntry) "isInstagramShowcase" with
    | Some v => truthy v
    | None => false
    end in
  let numRequiredFields := if isInstagramShowcase then 5%nat else 2%nat in
  let maxPhotos :=
    match extra_field (extraParam editEntry) "maxPhotos" with
    | Some v => to_number v
    | None => Some 0
    end in
  let numPhotos := count_photos showcase in
  if match maxPhotos with
     | Some m => negb (m =? 0) && (m <? Z.of_nat numPhotos)
     | None => false
     end
  then
    toast_error ("Please make sure the " ++ attributeName editEntry
                 ++ " section has no more than " ++ JsString.string_of_number maxPhotos
                 ++ " photos.") ;;;
    stop
  else
    title <- lift_js (get_prop showcase "title") ;;
    base <- ret (count_truthy [title; VBool (0 <? numPhotos)%nat]) ;;
    filledCount <-
      (if isInstagramShowcase then
         handle <- lift_js (get_prop showcase "handle") ;;
         url <- lift_js (get_prop showcase "url") ;;
         profile_photo_url <- lift_js (get_prop showcase "profile_photo_url") ;;
         ret (base + count_truthy [handle; url; profile_photo_url])%nat
       else ret base) ;;
    if (0 <? filledCount)%nat && (filledCount <? numRequiredFields)%nat then
      toast_error ("Title"
                   ++ (if isInstagramShowcase
                       then ", Handle, Profile URL, Profile Photo," else "")
                   ++ " and Images are required for " ++ attributeName editEntry ++ ".") ;;;
      stop
    else ret tt.

(** [if (editEntry.isRequired) { if (!entity[attribute]) { toast; return } }] *)
Definition check_required (editEntry : EditEntry) : Sub unit :=
  if isRequired editEntry then
    value <- read_attr (attribute editEntry) ;;
    if truthy value then ret tt
    else
      toast_error ("Field is required: " ++ JsString.dquote
                   ++ attributeName editEntry ++ JsString.dquote) ;;;
      stop
  else ret tt.

(** [if (type === Checkbox) entity[attribute] = checkboxFieldValue] *)
Definition set_checkbox (st : FormState) (editEntry : EditEntry) : Sub unit :=
  if EditEntryType_eqb (type editEntry) Checkbox
  then write_attr (attribute editEntry) (VBool (checkboxFieldValue st))
  else ret tt.

(** [if (editEntry.validations) for (const validation of ...) ...] *)
Definition check_validations (editEntry : EditEntry) : Sub unit :=
  match validations editEntry with
  | Some rules => run_validations editEntry rules
  | None => ret tt
  end.

(** What the loop body does before the declared validation rules. *)
Definition before_validations (st : FormState) (editEntry : EditEntry) : Sub unit :=
  check_required editEntry ;;;
  set_checkbox st editEntry ;;;
  (if EditEntryType_eqb (type editEntry) Article
   then check_article editEntry else ret tt) ;;;
  prune_list st editEntry.

(** The body of the loop over [props.editEntries]. *)
Definition entry_step (st : FormState) (editEntry : EditEntry) : Sub unit :=
  before_validations st editEntry ;;;
  check_validations editEntry ;;;
  (if EditEntryType_eqb (type editEntry) Showcase
   then check_showcase editEntry else ret tt).

(** ** [handleSubmit] and the deferred success callback *)

(** The callback handed to [setTimeout]. *)
Definition success_callback (h : Handler) : Sub unit :=
  fun w =>
    match h (VObj false (entity w)) with
    | Threw msg => (Raise (HandlerError msg), w)
    | Returned => (hideLoading ;;; toast_success "Successfully submitted!") w
    end.

(** The two loops that bring the submitted values into the entity: the
    form controls first, the upload results after them. *)
Definition merge_phase (st : FormState) (formElements : list FormElement)
  : Sub unit :=
  for_each (raw_step st) formElements ;;;
  for_each (upload_step st) (uploadPhotoMap st).

(** [if (props.onSubmitSuccess) { try { setTimeout(...) } catch ... }] *)
Definition finish_phase (st : FormState) : Sub unit :=
  match onSubmitSuccess st with
  | Some h =>
      try_catch (setTimeout h 1000)
                (fun error => hideLoading ;;; console_log (LogExn error))
  | None => ret tt
  end.

Definition handleSubmit (st : FormState) (formElements : list FormElement)
  : Sub unit :=
  showLoading ;;;
  merge_phase st formElements ;;;
  for_each (entry_step st) (editEntries st) ;;;
  finish_phase st.

(** The host's timer phase, after [handleSubmit] has returned: every queued
    callback runs as a task of its own; an exception a callback throws has no
    handler on the stack and is reported by the host as uncaught. *)
Fixpoint run_tasks (ts : list Timer) (w : World) : list Exn * World :=
  match ts with
  | [] => ([], w)
  | t :: rest =>
      let '(sig, w') := success_callback (timer_handler t) w in
      let '(uncaught, w'') := run_tasks rest w' in
      (match sig with Raise e => e :: uncaught | _ => uncaught end, w'')
  end.

Definition run_timers (w : World) : list Exn * World :=
  run_tasks (timers w)
            (mkWorld (entity w) (toasts w) (console w) (loading w) []).

(** ** Render-side state: list sizes and the checkbox value *)

(** A descriptor is rendered unless its [condition] is present and false. *)
Definition rendered (editEntry : EditEntry) : bool :=
  match condition editEntry with
  | Some c => c
  | None => true
  end.

Definition is_list_type (t : EditEntryType) : bool :=
  EditEntryType_eqb t TextList || EditEntryType_eqb t DoubleTextList.

(** [Object.keys(v).length] *)
Definition count_keys (v : Value) : nat :=
  match v with
  | VObj _ ps => length ps
  | VStr s => String.length s
  | _ => 0%nat
  end.

(** The effect that initialises [listFieldSize] from [props.entityObj]. *)
Definition init_listFieldSize (entries : list EditEntry) (entityObj : Props)
  : list nat :=
  (fun entry =>
     if is_list_type (type entry) then
       if has_prop (attribute entry) entityObj
          && truthy (lookup_prop (attribute entry) entityObj)
       then count_keys (lookup_prop (attribute entry) entityObj)
       else 0%nat
     else 0%nat) <$> entries.

(** The Add and Remove buttons of a list field at position [index] (a
    position of [listFieldSize], which has one entry per descriptor). *)
Definition add_row (index : nat) (sizes : list nat) : list nat :=
  match sizes !! index with
  | Some n => <[index := Nat.min 10 (n + 1)]> sizes
  | None => sizes
  end.
Definition remove_row (index : nat) (sizes : list nat) : list nat :=
  match sizes !! index with
  | Some n => <[index := Nat.max 1 (n - 1)]> sizes
  | None => sizes
  end.


(** ** Render-side code of the Article and PillList fields *)

(** [String(v)] of an array element, as [join] applies it; an element that
    is itself an object or array is not represented. *)
Definition join_element (v : Value) : string :=
  match v with
  | VStr s => s
  | VNum n => JsString.string_of_number (Some n)
  | VBool b => if b then "true" else "false"
  | VUndefined | VNull => ""
  | VObj _ _ => "[object Object]"
  end.

(** The default value of the [content] text area of an Article field:
    [entity[attr] && entity[attr]["content"] ? (typeof c === "string" ? c :
    c.join("\n")) : ""]; [None] when [c.join] is not a function. *)
Definition content_default (attr : string) (ent : Props) : option string :=
  let article := lookup_prop attr ent in
  if truthy article then
    match get_prop article "content" with
    | Some c =>
        if truthy c then
          match c with
          | VStr s => Some s
          | VObj true ps =>
              Some (JsString.join_with JsString.newline (join_element <$> ps.*2))
          | _ => None
          end
        else Some ""
    | None => Some ""
    end
  else Some "".

(** [[...v]]: the elements of an array (taken to be dense, in index
    order) or the characters of a string; [None] when [v] is not iterable. *)
Definition spread (v : Value) : option (list Value) :=
  match v with
  | VObj true ps => Some ps.*2
  | VStr s => Some ((fun c => VStr (String c EmptyString)) <$> list_ascii_of_string s)
  | _ => None
  end.

(** The state of the PillList input and the form key. *)
Record PillState : Type := mkPillState {
  newPill : string;
  formKey : nat
}.

(** What rendering a PillList field does first:
    [if (entity && !entity[attr]) entity[attr] = []]. *)
Definition pill_init (attr : string) : Sub unit := ensure_attr attr empty_array.

(** [addPill]: append the trimmed input, when it is not blank, and clear
    the input. *)
Definition addPill (attr : string) (ps : PillState) : Sub PillState :=
  if truthy (VStr (JsString.trim (newPill ps))) then
    cur <- read_attr attr ;;
    items <- lift_js (spread cur) ;;
    write_attr attr (array_of_list (items ++ [VStr (JsString.trim (newPill ps))])%list) ;;;
    ret (mkPillState "" (formKey ps))
  else ret ps.

(** [removePill(index)]: [splice(index, 1)] on a copy, and a new form key. *)
Definition removePill (attr : string) (index : nat) (ps : PillState) : Sub PillState :=
  cur <- read_attr attr ;;
  items <- lift_js (spread cur) ;;
  write_attr attr (array_of_list (take index items ++ drop (S index) items)%list) ;;;
  ret (mkPillState (newPill ps) (formKey ps + 1)).

(** ** The upload service and the stored files

    [uploadFile] of [services/firebase.ts], [StoredFile] of [data/common],
    and the code of the form that starts an upload. *)

Inductive StoredFileState : Type :=
| Uploading
| Ready
| Failed
| Deleted.

(** A browser [File]: the three properties the service reads. *)
Module File.
Record t : Type := mk {
  name : string;
  size : Z;
  type : string
}.
End File.

(** [StoredFileData]: every property is optional. *)
Module StoredFileData.
Record t : Type := mk {
  id : option string;
  file_name : option string;
  file_path : option string;
  file_size : option Z;
  content_type : option string;
  entity_id : option string;
  field_name : option string;
  created_at : option string;
  state : option StoredFileState
}.
End StoredFileData.

(** [a || b] on an optional string: a missing and an empty one give [b]. *)
Definition or_string (a : option string) (b : string) : string :=
  match a with
  | Some s => if String.eqb s "" then b else s
  | None => b
  end.

Module StoredFile.
Record t : Type := mk {
  id : string;
  file_name : string;
  file_path : string;
  file_size : Z;
  content_type : string;
  entity_id : string;
  field_name : string;
  created_at : string;
  state : StoredFileState
}.

(** The constructor; [now] is [new Date().toISOString()].  Every state is
    a non-empty string, so only a missing one is replaced. *)
Definition new (now : string) (data : StoredFileData.t) : t :=
  mk (or_string (StoredFileData.id data) "")
     (or_string (StoredFileData.file_name data) "")
     (or_string (StoredFileData.file_path data) "")
     (match StoredFileData.file_size data with
      | Some n => if n =? 0 then 0 else n
      | None => 0
      end)
     (or_string (StoredFileData.content_type data) "")
     (or_string (StoredFileData.entity_id data) "")
     (or_string (StoredFileData.field_name data) "")
     (or_string (StoredFileData.created_at data) now)
     (match StoredFileData.state data with
      | Some s => s
      | None => Ready
      end).
End StoredFile.

(** What the browser answers at the time of a call: [Date.now()],
    [new Date().toISOString()] and [URL.createObjectURL]. *)
Record Browser : Type := mkBrowser {
  Date_now : Z;
  Date_toISOString : string;
  createObjectURL : File.t -> string
}.

(** The interval of an upload: not set before [reader.onload] has run, then
    set with the [progress] of the closure, then cleared. *)
Inductive IntervalState : Type :=
| NotSet
| Running (progress : Z)
| Cleared.

(** An upload: the arguments of [uploadFile] and the interval.  The
    callbacks act on the state [St] of the caller. *)
Record Upload (St : Type) : Type := mkUpload {
  entityId : string;
  fieldName : string;
  file : File.t;
  onProgress : option (Z -> St -> St);
  onComplete : option (StoredFile.t -> St -> St);
  progressInterval : IntervalState
}.
Arguments mkUpload {St} _ _ _ _ _ _.
Arguments entityId {St} _.
Arguments fieldName {St} _.
Arguments file {St} _.
Arguments onProgress {St} _.
Arguments onComplete {St} _.
Arguments progressInterval {St} _.

Definition with_interval {St} (i : IntervalState) (u : Upload St) : Upload St :=
  mkUpload (entityId u) (fieldName u) (file u) (onProgress u) (onComplete u) i.

(** [if (callback) callback(a)] *)
Definition call_if_given {St A} (callback : option (A -> St -> St)) (a : A) (s : St) : St :=
  match callback with
  | Some f => f a s
  | None => s
  end.

(** [uploadFile]: the reader is started, nothing else has happened. *)
Definition uploadFile {St} (entityId fieldName : string) (file : File.t)
    (onProgress : option (Z -> St -> St))
    (onComplete : option (StoredFile.t -> St -> St)) : Upload St :=
  mkUpload entityId fieldName file onProgress onComplete NotSet.

(** [reader.onload]: [progress = 0] and the interval is set.  A reader
    loads once. *)
Definition reader_onload {St} (u : Upload St) : Upload St :=
  match progressInterval u with
  | NotSet => with_interval (Running 0) u
  | _ => u
  end.

(** The object the service builds when the progress reaches 100. *)
Definition storedFile {St} (b : Browser) (u : Upload St) : StoredFile.t :=
  StoredFile.new (Date_toISOString b)
    (StoredFileData.mk
       (Some ("file-" ++ JsString.string_of_number (Some (Date_now b))))
       (Some (File.name (file u)))
       (Some (createObjectURL b (file u)))
       (Some (File.size (file u)))
       (Some (File.type (file u)))
       (Some (entityId u))
       (Some (fieldName u))
       (Some (Date_toISOString b))
       (Some Ready)).

(** The callback of [setInterval], every 200 ms while the interval is set. *)
Definition interval_callback {St} (b : Browser) (u : Upload St) (s : St) : Upload St * St :=
  match progressInterval u with
  | Running p =>
      let progress := p + 10 in
      let s1 := call_if_given (onProgress u) progress s in
      if 100 <=? progress then
        (with_interval Cleared u, call_if_given (onComplete u) (storedFile b u) s1)
      else (with_interval (Running progress) u, s1)
  | _ => (u, s)
  end.

(** [cancel] of the returned task: [console.log('Upload cancelled')]. *)
Definition cancel : Sub unit := console_log (LogValues [VStr "Upload cancelled"]).

(** [obj[k]] and [obj[k] = v] on a record of strings. *)
Fixpoint lookup_key (k : string) (m : list (string * string)) : option string :=
  match m with
  | [] => None
  | (k', v) :: r => if String.eqb k k' then Some v else lookup_key k r
  end.
Fixpoint assign_key (k v : string) (m : list (string * string)) : list (string * string) :=
  match m with
  | [] => [(k, v)]
  | (k', v') :: r =>
      if String.eqb k k' then (k, v) :: r else (k', v') :: assign_key k v r
  end.

Definition setUploadPhotoMap (m : list (string * string)) (st : FormState) : FormState :=
  mkFormState (editEntries st) (listFieldSize st) (checkboxFieldValue st)
              m (onSubmitSuccess st).

(** [uploadFileToFirestore], called in the render with state [st]: the
    completion callback copies the [uploadPhotoMap] of that render. *)
Definition uploadFileToFirestore (entityObj : Props) (st : FormState)
    (fieldName : string) (fileToUpload : File.t) : Upload FormState :=
  uploadFile
    (if has_prop "id" entityObj then js_String (lookup_prop "id" entityObj) else "")
    fieldName fileToUpload
    (Some (fun _ st' => st'))
    (Some (fun file =>
             let uploadPhotoMapCp :=
               assign_key fieldName (StoredFile.file_path file) (uploadPhotoMap st) in
             setUploadPhotoMap uploadPhotoMapCp)).

(** [onChange] of a file input of the form, for the upload name [name]:
    nothing without a file, a toast for a file above 10090000 bytes,
    otherwise the upload of the first file. *)
Definition file_onChange (entityObj : Props) (st : FormState) (name : string)
    (files : list File.t) : Sub (option (Upload FormState)) :=
  match files with
  | [] => ret None
  | first :: _ =>
      if 10090000 <? File.size first then
        toast_error "Please upload file under 10MB." ;;; ret None
      else ret (Some (uploadFileToFirestore entityObj st name first))
  end.

(** * Statements

    The predicates the properties are stated with, and the forms they are
    tried on. *)

(** ** Predicates *)

(** Path tokens without underscores: the attribute, and the subfield of a
    plain subfield path. *)
Definition underscore_free (p : Path) : Prop :=
  JsString.has_char "_" (path_attr p) = false
  /\ match p with
     | PathSub _ sub => JsString.has_char "_" sub = false
     | _ => True
     end.

(** The toasts, the timer queue and the loading indicator are as before. *)
Definition same_ui (w w' : World) : Prop :=
  toasts w' = toasts w /\ timers w' = timers w /\ loading w' = loading w.

(** The entity is as before. *)
Definition same_entity (w w' : World) : Prop := entity w' = entity w.

(** The entity is as before at every attribute other than [a]. *)
Definition others_unchanged (a : string) (w w' : World) : Prop :=
  forall b, b <> a -> lookup_prop b (entity w') = lookup_prop b (entity w).

(** Every run of [m] relates the worlds by [R]; with [allow_stop = false]
    no run ends in [return]. *)
Definition satisfies {A} (R : relation World) (allow_stop : bool) (m : Sub A) : Prop :=
  forall w sig w', m w = (sig, w') -> R w w' /\ (allow_stop = false -> sig <> Stop).

(** [m] leaves timers and loading alone, and shows exactly one error toast
    when it ends in [return] and none otherwise. *)
Definition reports {A} (m : Sub A) : Prop :=
  forall w sig w', m w = (sig, w') ->
    timers w' = timers w /\ loading w' = loading w
    /\ match sig with
       | Stop => exists msg, toasts w' = (toasts w ++ [ToastError msg])%list
       | _ => toasts w' = toasts w
       end.

(** The sizes are those of a form: a descriptor that is not a list field
    has size 0, as the initialising effect sets it and as the Add and Remove
    buttons, which only list fields have, leave it. *)
Definition sizes_wf (entries : list EditEntry) (sizes : list nat) : Prop :=
  forall i e n,
    entries !! i = Some e -> sizes !! i = Some n ->
    is_list_type (type e) = false -> n = 0%nat.



(** A control that is not a radio button. *)
Definition plain_control (name value : string) : FormElement :=
  mkFormElement name value false false.


Definition too_long_30 (attributeName : string) : string :=
  error_for attributeName ++ "Needs to be shorter than 30 characters".

Definition out_of_price_range (attributeName : string) : string :=
  error_for attributeName ++ "Please enter a number between 0-9999".

(** The strings a regular expression denotes. *)
Inductive regex_lang : Regex.Re -> string -> Prop :=
| lang_eps : regex_lang Regex.Eps EmptyString
| lang_class p c : p c = true -> regex_lang (Regex.Class p) (String c EmptyString)
| lang_seq r1 r2 s1 s2 :
    regex_lang r1 s1 -> regex_lang r2 s2 -> regex_lang (Regex.Seq r1 r2) (s1 ++ s2)
| lang_alt_l r1 r2 s : regex_lang r1 s -> regex_lang (Regex.Alt r1 r2) s
| lang_alt_r r1 r2 s : regex_lang r2 s -> regex_lang (Regex.Alt r1 r2) s
| lang_star_nil r : regex_lang (Regex.Star r) EmptyString
| lang_star_cons r s1 s2 :
    regex_lang r s1 -> regex_lang (Regex.Star r) s2 ->
    regex_lang (Regex.Star r) (s1 ++ s2).

(** Every character of the string satisfies [p]. *)
Fixpoint all_chars (p : ascii -> bool) (s : string) : bool :=
  match s with
  | EmptyString => true
  | String c r => p c && all_chars p r
  end.

(** A non-empty string without white space: what [\S+] matches. *)
Definition word (s : string) : Prop :=
  s <> "" /\ all_chars (fun c => negb (JsString.is_space c)) s = true.

(** The entity is as before at every attribute that is not declared. *)
Definition declared_only (known : gset string) (w w' : World) : Prop :=
  forall b, b ∉ known -> lookup_prop b (entity w') = lookup_prop b (entity w).

(** A value a property can be written under: an object or array, or a
    falsy value, which the code replaces by a fresh container first. *)
Definition writable (v : Value) : Prop :=
  match v with
  | VObj _ _ => True
  | _ => truthy v = false
  end.

(** The container a write goes into: the object itself, or the fresh one
    with the given array flag. *)
Definition container (fresh_array : bool) (v : Value) : bool * Props :=
  match v with
  | VObj arr ps => (arr, ps)
  | _ => (fresh_array, [])
  end.

(** A click on the Add or the Remove button of the field at a position. *)
Inductive SizeClick : Type :=
| AddRow (index : nat)
| RemoveRow (index : nat).

Definition click_index (c : SizeClick) : nat :=
  match c with
  | AddRow i | RemoveRow i => i
  end.

Definition click (sizes : list nat) (c : SizeClick) : list nat :=
  match c with
  | AddRow i => add_row i sizes
  | RemoveRow i => remove_row i sizes
  end.

(** The click is on a button that exists: the position holds a list field. *)
Definition on_list_field (entries : list EditEntry) (c : SizeClick) : Prop :=
  exists e, entries !! click_index c = Some e /\ is_list_type (type e) = true.

(** What the loop over the controls stores for a subfield value. *)
Definition stored_value (sub value : string) : Value :=
  if JsString.has_char JsString.newline_char value
     || (String.eqb sub "content" && negb (String.eqb value ""))
  then split_lines value else VStr value.

(** What happens to an upload: the reader loads, the interval fires (with
    what the browser answers then), or [cancel] is called. *)
Inductive UploadEvent : Type :=
| ReaderLoaded
| IntervalFired (b : Browser)
| CancelCalled.

Definition upload_event {St} (x : Upload St * St * World) (ev : UploadEvent)
  : Upload St * St * World :=
  let '(u, s, w) := x in
  match ev with
  | ReaderLoaded => (reader_onload u, s, w)
  | IntervalFired b => let (u', s') := interval_callback b u s in (u', s', w)
  | CancelCalled => (u, s, (cancel w).2)
  end.

(** The browser's answers at the firings of the interval. *)
Definition firings (evs : list UploadEvent) : list Browser :=
  omap (fun ev => match ev with IntervalFired b => Some b | _ => None end) evs.

Definition is_load (ev : UploadEvent) : bool :=
  match ev with
  | ReaderLoaded => true
  | _ => false
  end.

(** The stored file of an upload that completed at browser answers [b]. *)
Definition ready_file (b : Browser) (entityId fieldName : string) (file : File.t)
  : StoredFile.t :=
  StoredFile.mk ("file-" ++ JsString.string_of_number (Some (Date_now b)))
                (File.name file) (createObjectURL b file) (File.size file)
                (File.type file) entityId fieldName (Date_toISOString b) Ready.

(** The calls an upload makes over the firings [bs]: progress 10, 20, ...
    up to 100, then the completion at the tenth firing. *)
Definition expected_calls {St} (u : Upload St) (bs : list Browser) : list (St -> St) :=
  ((fun k => call_if_given (onProgress u) (10 * Z.of_nat k)) <$> seq 1 (Nat.min 10 (length bs)))
  ++ match bs !! 9%nat with
     | Some b => [call_if_given (onComplete u)
                    (ready_file b (entityId u) (fieldName u) (file u))]
     | None => []
     end.

(** Events of several uploads, each addressed to an upload by position. *)
Definition pool_event (x : list (Upload FormState) * FormState * World)
    (ev : nat * UploadEvent) : list (Upload FormState) * FormState * World :=
  let '(us, st, w) := x in
  match us !! ev.1 with
  | Some u =>
      let '(u', st', w') := upload_event (u, st, w) ev.2 in
      (<[ev.1 := u']> us, st', w')
  | None => x
  end.

(** An upload the form started in the render with state [st], for one of
    the picked files, at any point of its progress. *)
Definition started_in (entityObj : Props) (st : FormState)
    (picks : list (string * File.t)) (u : Upload FormState) : Prop :=
  exists name file iv,
    (name, file) ∈ picks
    /\ u = with_interval iv (uploadFileToFirestore entityObj st name file).

(** The state [st'] differs from [st] at most by the result of one of the
    picked files in the photo map. *)
Definition one_result_kept (st : FormState) (picks : list (string * File.t))
    (st' : FormState) : Prop :=
  (uploadPhotoMap st' = uploadPhotoMap st
   \/ exists name file b,
        (name, file) ∈ picks
        /\ uploadPhotoMap st'
           = assign_key name (createObjectURL b file) (uploadPhotoMap st))
  /\ editEntries st' = editEntries st
  /\ listFieldSize st' = listFieldSize st
  /\ checkboxFieldValue st' = checkboxFieldValue st.

(** An upload started in the current render and run to the end of its
    events before the next one is started. *)
Definition upload_in_turn (entityObj : Props) (w : World) (st : FormState)
    (job : string * File.t * list UploadEvent) : FormState :=
  (foldl upload_event
     (reader_onload (uploadFileToFirestore entityObj st job.1.1 job.1.2), st, w)
     job.2).1.2.

(** ** Example forms *)

Definition empty_world : World := mkWorld [] [] [] false [].

Definition address_entry (attr : string) : EditEntry :=
  mkEditEntry attr attr Address false None VUndefined None.

Definition faq_entry : EditEntry :=
  mkEditEntry "faq" "FAQ" DoubleTextList false None VUndefined None.

Definition faq_form : FormState :=
  mkFormState [faq_entry] [1%nat] false [] None.


Definition throwing_form : FormState :=
  mkFormState [mkEditEntry "name" "Name" Text true (Some [RequiredField]) VUndefined None]
              [0%nat] false [] (Some (fun _ => Threw "boom")).

Definition hidden_required_form : FormState :=
  mkFormState
    [mkEditEntry "nickname" "Nickname" Text true None VUndefined (Some false)]
    [0%nat] false [] (Some (fun _ => Returned)).

Definition hidden_article_form : FormState :=
  mkFormState
    [mkEditEntry "story" "Story" Article false None VUndefined (Some false)]
    [0%nat] false [] (Some (fun _ => Returned)).

Definition tags_entry : EditEntry :=
  mkEditEntry "tags" "Tags" TextList false None VUndefined None.

Definition tags_form : FormState :=
  mkFormState [tags_entry] [2%nat] false [] (Some (fun _ => Returned)).

Definition tags_controls : list FormElement :=
  [plain_control "tags_listfieldsingleidx_0" "red";
   plain_control "tags_listfieldsingleidx_1" "blue"].

Definition name_entry : EditEntry :=
  mkEditEntry "name" "Name" Text true
              (Some [RequiredField; TextLengthBelow30; Email]) VUndefined None.

Definition email_entry : EditEntry :=
  mkEditEntry "email" "Email" Text true (Some [Email]) VUndefined None.

Definition signup_form : FormState :=
  mkFormState [name_entry; email_entry] [0%nat; 0%nat] false []
              (Some (fun _ => Returned)).

Definition long_name : string := "abcdefghijklmnopqrstuvwxyz01234".



(** * Properties *)

(** ** Facts about the string primitives *)

Section StringFacts.
Import JsString.

Lemma split_on_nonempty c s : split_on c s <> [].
Proof.
  destruct s as [|a r]; simpl; [discriminate|].
  destruct (Ascii.eqb a c); [discriminate|].
  destruct (split_on c r); discriminate.
Qed.

Lemma join_split c s : join_with (String c EmptyString) (split_on c s) = s.
Proof.
  induction s as [|a r IH]; simpl; [reflexivity|].
  destruct (Ascii.eqb_spec a c) as [->|Hne].
  - pose proof (split_on_nonempty c r) as Hn.
    destruct (split_on c r) as [|h t] eqn:E; [contradiction|].
    simpl in *. now rewrite IH.
  - pose proof (split_on_nonempty c r) as Hn.
    destruct (split_on c r) as [|h t] eqn:E; [contradiction|].
    destruct t as [|h' t']; simpl in *; now rewrite <- IH.
Qed.

Lemma split_on_no_char c s : has_char c s = false -> split_on c s = [s].
Proof.
  induction s as [|a r IH]; simpl; [reflexivity|].
  intros H. apply orb_false_iff in H as [Ha Hr].
  rewrite Ha, (IH Hr). reflexivity.
Qed.

Lemma split_on_app c a r :
  has_char c a = false ->
  split_on c (a ++ String c r) = a :: split_on c r.
Proof.
  induction a as [|x a IH]; simpl.
  - intros _. now rewrite Ascii.eqb_refl.
  - intros H. apply orb_false_iff in H as [Hx Ha].
    rewrite Hx, (IH Ha). reflexivity.
Qed.

Lemma has_char_app c a b : has_char c (a ++ b) = has_char c a || has_char c b.
Proof.
  induction a as [|x a IH]; simpl; [reflexivity|].
  rewrite IH. now rewrite orb_assoc.
Qed.

Lemma includes_char c s : includes s (String c EmptyString) = has_char c s.
Proof.
  induction s as [|a r IH]; simpl; [reflexivity|].
  rewrite IH. destruct (Ascii.ascii_dec c a) as [->|Hne].
  - destruct (Ascii.ascii_dec a a); [|contradiction].
    rewrite Ascii.eqb_refl. destruct r; reflexivity.
  - destruct (Ascii.eqb_spec a c) as [->|_]; [contradiction|]. reflexivity.
Qed.

Lemma prefix_has_char c t s :
  String.prefix t s = true -> has_char c t = true -> has_char c s = true.
Proof.
  revert s. induction t as [|x t IH]; intros s Hp Hc; simpl in *; [discriminate|].
  destruct s as [|y s]; [discriminate|]. simpl in Hp.
  destruct (Ascii.ascii_dec x y) as [->|]; [|discriminate].
  simpl. destruct (Ascii.eqb y c); [reflexivity|]. simpl in *. now apply IH.
Qed.

(** A string without the character [c] includes no string with it. *)
Lemma includes_no_char c s t :
  has_char c t = true -> has_char c s = false -> includes s t = false.
Proof.
  intros Ht. induction s as [|a r IH]; intros Hs.
  - simpl. destruct t; [discriminate|reflexivity].
  - simpl in Hs. apply orb_false_iff in Hs as [Ha Hr].
    cbn [includes]. rewrite (IH Hr), orb_false_r.
    destruct (String.prefix t (String a r)) eqn:Hp; [|reflexivity].
    pose proof (prefix_has_char c _ _ Hp Ht) as Hc. simpl in Hc.
    rewrite Ha, Hr in Hc. discriminate.
Qed.

Lemma prefix_app t r : String.prefix t (t ++ r) = true.
Proof.
  induction t as [|x t IH]; simpl; [destruct r; reflexivity|].
  destruct (Ascii.ascii_dec x x); [assumption|contradiction].
Qed.

Lemma includes_prefix t r : includes (t ++ r) t = true.
Proof.
  destruct (t ++ r) eqn:E; cbn [includes]; rewrite <- E, prefix_app; reflexivity.
Qed.

Lemma is_digit_facts c :
  is_digit c = true ->
  is_space c = false /\ c <> "-"%char /\ c <> "+"%char /\ c <> "_"%char.
Proof.
  destruct c as [[] [] [] [] [] [] [] []]; cbv; intros H;
    try discriminate H; repeat split; discriminate.
Qed.

Lemma all_digits_no_underscore s : all_digits s -> has_char "_" s = false.
Proof.
  unfold all_digits. induction s as [|a r IH]; simpl; [reflexivity|].
  destruct (is_digit a) eqn:Hd; [|discriminate].
  destruct (span_digits r) as [d rest] eqn:E. intros [= Hdr Hrest]. subst.
  rewrite IH by reflexivity. rewrite orb_false_r.
  destruct (is_digit_facts a Hd) as (_ & _ & _ & Hu).
  destruct (Ascii.eqb_spec a "_"); [contradiction|reflexivity].
Qed.

Lemma parseInt_digits s :
  s <> EmptyString -> all_digits s -> parseInt s = Some (digits_value s 0).
Proof.
  intros Hne Hd. destruct s as [|a r]; [contradiction|].
  unfold all_digits in Hd. pose proof Hd as Hd'. simpl in Hd'.
  destruct (is_digit a) eqn:Ha; [|discriminate].
  destruct (is_digit_facts a Ha) as (Hsp & Hm & Hp & _).
  unfold parseInt. cbn [drop_spaces]. rewrite Hsp.
  assert (E : (let '(neg, s2) :=
                 match String a r with
                 | String "-" r0 => (true, r0)
                 | String "+" r0 => (false, r0)
                 | _ => (false, String a r)
                 end in
               match fst (span_digits s2) with
               | EmptyString => None
               | ds => Some (if neg : bool then - digits_value ds 0 else digits_value ds 0)
               end) = Some (digits_value (String a r) 0)).
  { assert (Hcase : match String a r with
                    | String "-" r0 => (true, r0)
                    | String "+" r0 => (false, r0)
                    | _ => (false, String a r)
                    end = (false, String a r)).
    { destruct a as [[] [] [] [] [] [] [] []]; try reflexivity;
        first [now elim Hm | now elim Hp]. }
    rewrite Hcase, Hd. reflexivity. }
  exact E.
Qed.

Lemma string_of_uint_digits d : all_digits (NilEmpty.string_of_uint d).
Proof.
  unfold all_digits. induction d; simpl; try reflexivity;
    rewrite IHd; reflexivity.
Qed.

Lemma digits_value_of_uint d acc :
  digits_value (NilEmpty.string_of_uint d) (Z.of_nat acc)
  = Z.of_nat (Nat.of_uint_acc d acc).
Proof.
  revert acc. induction d; intros acc;
    cbn [NilEmpty.string_of_uint digits_value Nat.of_uint_acc]; [reflexivity|..];
    rewrite Nat.tail_mul_spec, <- IHd; f_equal;
    match goal with
    | |- context [digit_value ?c] =>
        let v := eval vm_compute in (digit_value c) in
        change (digit_value c) with v
    end; lia.
Qed.

Lemma to_uint_not_nil n : Nat.to_uint n <> Decimal.Nil.
Proof.
  intros H. pose proof (DecimalNat.Unsigned.of_to n) as E. rewrite H in E.
  simpl in E. subst n. discriminate H.
Qed.

Lemma string_of_nat_nonempty n : string_of_nat n <> EmptyString.
Proof.
  unfold string_of_nat. pose proof (to_uint_not_nil n).
  destruct (Nat.to_uint n); [contradiction|discriminate..].
Qed.

(** [parseInt(String(n), 10) === n] for a natural number. *)
Lemma parseInt_string_of_nat n : parseInt (string_of_nat n) = Some (Z.of_nat n).
Proof.
  rewrite parseInt_digits.
  - unfold string_of_nat. rewrite (digits_value_of_uint _ 0).
    change (Nat.of_uint_acc (Nat.to_uint n) 0) with (Nat.of_uint (Nat.to_uint n)).
    now rewrite DecimalNat.Unsigned.of_to.
  - apply string_of_nat_nonempty.
  - apply string_of_uint_digits.
Qed.

Lemma parseInt_minus s :
  s <> EmptyString -> all_digits s ->
  parseInt (String "-" s) = Some (- digits_value s 0).
Proof.
  intros Hne Hd. unfold parseInt.
  change (drop_spaces (String "-" s)) with (String "-" s).
  cbv beta iota zeta. rewrite Hd. cbn [fst].
  destruct s; [contradiction|reflexivity].
Qed.

(** The same for every JavaScript integer and for [NaN]. *)
Lemma parseInt_string_of_number x : parseInt (string_of_number x) = x.
Proof.
  destruct x as [z|]; [|reflexivity].
  unfold string_of_number. destruct (Z.ltb_spec z 0) as [Hneg|Hpos].
  - pose proof (parseInt_string_of_nat (Z.to_nat (- z))) as E.
    rewrite parseInt_digits in E
      by (apply string_of_nat_nonempty || apply string_of_uint_digits).
    injection E as E.
    change ("-" ++ string_of_nat (Z.to_nat (- z)))
      with (String "-" (string_of_nat (Z.to_nat (- z)))).
    rewrite parseInt_minus
      by (apply string_of_nat_nonempty || apply string_of_uint_digits).
    rewrite E. f_equal. lia.
  - rewrite parseInt_string_of_nat. f_equal. lia.
Qed.

Lemma string_of_number_no_underscore x : has_char "_" (string_of_number x) = false.
Proof.
  destruct x as [z|]; [|reflexivity].
  unfold string_of_number. destruct (z <? 0).
  - simpl. apply all_digits_no_underscore, string_of_uint_digits.
  - apply all_digits_no_underscore, string_of_uint_digits.
Qed.

End StringFacts.

(** ** The field-name codec *)

Section Codec.
Import JsString.

Lemma has_char_split c s :
  has_char c s = true ->
  exists a r, s = a ++ String c r /\ has_char c a = false.
Proof.
  induction s as [|x s IH]; simpl; [discriminate|].
  destruct (Ascii.eqb_spec x c) as [->|Hne]; simpl.
  - intros _. exists EmptyString, s. split; reflexivity.
  - intros H. destruct (IH H) as (a & r & -> & Ha).
    exists (String x a), r. split; [reflexivity|]. simpl.
    destruct (Ascii.eqb_spec x c); [contradiction|assumption].
Qed.

(** A name with a first underscore splits there. *)
Lemma split_first_underscore a rest :
  has_char "_" a = false ->
  includes (a ++ String "_" rest) "_" = true
  /\ hd "" (split_on "_" (a ++ String "_" rest)) = a
  /\ join_with "_" (drop 1 (split_on "_" (a ++ String "_" rest))) = rest.
Proof.
  intros Ha. rewrite includes_char, has_char_app, split_on_app by assumption.
  cbn [has_char hd drop]. rewrite Ascii.eqb_refl, orb_true_r.
  repeat split. apply (join_split "_").
Qed.

Lemma decode_name_known known name :
  name ∈ known -> decode_name known name = Some (PathAttr name).
Proof. intros H. unfold decode_name. now rewrite bool_decide_eq_true_2. Qed.

Lemma decode_name_split known a rest :
  a ++ String "_" rest ∉ known ->
  has_char "_" a = false ->
  decode_name known (a ++ String "_" rest)
  = if bool_decide (a ∈ known) then Some (decode_sub_field a rest) else None.
Proof.
  intros Hn Ha. unfold decode_name.
  rewrite bool_decide_eq_false_2 by assumption.
  destruct (split_first_underscore a rest Ha) as (-> & -> & ->).
  reflexivity.
Qed.

Lemma decode_sub_field_attr a rest : path_attr (decode_sub_field a rest) = a.
Proof.
  unfold decode_sub_field.
  destruct (includes rest "listfieldidx_"); [reflexivity|].
  destruct (includes rest "listfieldsingleidx_"); reflexivity.
Qed.

Lemma decode_sub_field_plain a sub :
  has_char "_" sub = false -> decode_sub_field a sub = PathSub a sub.
Proof.
  intros H. unfold decode_sub_field.
  rewrite !(includes_no_char "_") by (assumption || reflexivity). reflexivity.
Qed.

Lemma decode_sub_field_single a i :
  decode_sub_field a ("listfieldsingleidx_" ++ string_of_number i)
  = PathListSingle a i.
Proof.
  pose proof (string_of_number_no_underscore i) as Hi.
  unfold decode_sub_field.
  assert (E1 : includes ("listfieldsingleidx_" ++ string_of_number i)
                        "listfieldidx_" = false).
  { pose proof (includes_no_char "_" _ "listfieldidx_" eq_refl Hi) as E.
    revert E. generalize (string_of_number i). intros d E.
    cbv [String.append]. cbn. rewrite E. reflexivity. }
  rewrite E1, (includes_prefix "listfieldsingleidx_").
  change ("listfieldsingleidx_" ++ string_of_number i)
    with ("listfieldsingleidx" ++ String "_" (string_of_number i)).
  rewrite split_on_app by reflexivity.
  rewrite split_on_no_char by assumption.
  simpl. now rewrite parseInt_string_of_number.
Qed.

Lemma decode_sub_field_double a i k :
  decode_sub_field a ("listfieldidx_" ++ string_of_number i ++ "_" ++ k)
  = PathListDouble a i k.
Proof.
  pose proof (string_of_number_no_underscore i) as Hi.
  unfold decode_sub_field.
  rewrite (includes_prefix "listfieldidx_").
  change ("listfieldidx_" ++ string_of_number i ++ "_" ++ k)
    with ("listfieldidx" ++ String "_" (string_of_number i ++ String "_" k)).
  rewrite split_on_app by reflexivity.
  rewrite split_on_app by assumption.
  simpl. rewrite parseInt_string_of_number.
  f_equal. apply (join_split "_").
Qed.

(** Decoding an encoded path: the path comes back when its attribute is
    declared and its name is not itself a declared attribute. *)
Lemma decode_encode_fresh (known : gset string) (p : Path) :
  path_attr p ∈ known ->
  underscore_free p ->
  p = PathAttr (path_attr p) \/ encode_name p ∉ known ->
  decode_name known (encode_name p) = Some p.
Proof.
  intros Hin [Ha Hsub] Hfresh.
  destruct p as [a|a sub|a i|a i k]; cbn [path_attr encode_name] in *;
    [now apply decode_name_known| | |];
    (destruct Hfresh as [Hfresh|Hfresh]; [discriminate|]).
  - change (a ++ "_" ++ sub) with (a ++ String "_" sub) in *.
    rewrite decode_name_split, bool_decide_eq_true_2 by auto.
    now rewrite decode_sub_field_plain.
  - change (a ++ "_listfieldsingleidx_" ++ string_of_number i)
      with (a ++ String "_" ("listfieldsingleidx_" ++ string_of_number i)) in *.
    rewrite decode_name_split, bool_decide_eq_true_2 by auto.
    now rewrite decode_sub_field_single.
  - change (a ++ "_listfieldidx_" ++ string_of_number i ++ "_" ++ k)
      with (a ++ String "_" ("listfieldidx_" ++ string_of_number i ++ "_" ++ k)) in *.
    rewrite decode_name_split, bool_decide_eq_true_2 by auto.
    now rewrite decode_sub_field_double.
Qed.

End Codec.

Section CodecClaims.
Import JsString.

(** Claim C1, as stated, fails.  With the one declared attribute
    ["button_link"], the name ["button_link_city"] has that attribute as its
    longest declared prefix, yet it is not decoded to attribute
    ["button_link"] with subfield ["city"]: the text before the first
    underscore, ["button"], is not declared and the name is ignored.  With
    ["button"] declared as well, the name goes to ["button"], not to the
    longer match. *)
Lemma decode_name_not_longest_prefix :
  let known := updateTargets [address_entry "button_link"] in
  let known2 := updateTargets [address_entry "button"; address_entry "button_link"] in
  ("button_link" ∈ known)
  /\ encode_name (PathSub "button_link" "city") = "button_link_city"
  /\ decode_name known "button_link_city" = None
  /\ decode_name known "button_link_city" <> Some (PathSub "button_link" "city")
  /\ decode_name known2 "button_link_city" = Some (PathSub "button" "link_city").
Proof.
  cbv zeta. split; [apply (bool_decide_unpack _); vm_compute; exact I|].
  split; [reflexivity|]. split; [vm_compute; reflexivity|].
  split; [vm_compute; discriminate|vm_compute; reflexivity].
Qed.

(** The attribute a name is decoded to, in every case. *)
Lemma decode_name_cases (known : gset string) (name : string) :
  match decode_name known name with
  | Some p =>
      (path_attr p ∈ known)
      /\ (if bool_decide (name ∈ known) then p = PathAttr name
          else has_char "_" (path_attr p) = false
               /\ exists rest, name = path_attr p ++ "_" ++ rest
                               /\ p = decode_sub_field (path_attr p) rest)
  | None =>
      (name ∉ known)
      /\ forall a rest,
           name = a ++ "_" ++ rest -> has_char "_" a = false -> a ∉ known
  end.
Proof.
  destruct (decide (name ∈ known)) as [Hin|Hout].
  - rewrite (decode_name_known _ _ Hin), bool_decide_eq_true_2 by assumption.
    split; [exact Hin|reflexivity].
  - destruct (has_char "_" name) eqn:Hus.
    + destruct (has_char_split _ _ Hus) as (a & rest & -> & Ha).
      rewrite decode_name_split by assumption.
      destruct (decide (a ∈ known)) as [Ha_in|Ha_out].
      * rewrite bool_decide_eq_true_2 by assumption.
        rewrite bool_decide_eq_false_2 by assumption.
        rewrite decode_sub_field_attr. repeat split; try assumption.
        exists rest. split; reflexivity.
      * rewrite bool_decide_eq_false_2 by assumption.
        split; [assumption|]. intros a' rest' E Ha'.
        change (a' ++ "_" ++ rest') with (a' ++ String "_" rest') in E.
        destruct (split_first_underscore a rest Ha) as (_ & H1 & _).
        destruct (split_first_underscore a' rest' Ha') as (_ & H2 & _).
        rewrite E, H2 in H1. now subst a'.
    + unfold decode_name. rewrite bool_decide_eq_false_2 by assumption.
      rewrite includes_char, Hus. cbn [andb]. split; [assumption|].
      intros a rest -> _.
      change (a ++ "_" ++ rest) with (a ++ String "_" rest) in Hus.
      rewrite has_char_app in Hus. cbn [has_char] in Hus.
      rewrite Ascii.eqb_refl, orb_true_r in Hus. discriminate.
Qed.

(** Claim C1, amended: decoding takes the whole name as the attribute when
    the name is declared; otherwise it splits the name at its first
    underscore, and the text before it must be a declared attribute.  So the
    attribute found is either the whole name or underscore-free with the
    name equal to attribute, underscore, remainder; and a name is ignored
    exactly when it is not declared and the text before its first underscore
    (if there is one) is not declared either. *)
Theorem decode_name_first_underscore (known : gset string) (name : string) :
  match decode_name known name with
  | Some p =>
      (path_attr p ∈ known)
      /\ (if bool_decide (name ∈ known) then p = PathAttr name
          else has_char "_" (path_attr p) = false
               /\ exists rest, name = path_attr p ++ "_" ++ rest
                               /\ p = decode_sub_field (path_attr p) rest)
  | None =>
      (name ∉ known)
      /\ forall a rest,
           name = a ++ "_" ++ rest -> has_char "_" a = false -> a ∉ known
  end.
Proof. exact (decode_name_cases known name). Qed.

(** Claim C5, as stated, fails.  With the attributes ["home"] and
    ["home_city"] both declared, the path of subfield ["city"] of ["home"]
    has underscore-free tokens, yet its name ["home_city"] is decoded as the
    attribute ["home_city"], not as the path it was made from: a name that
    is itself declared is never split. *)
Lemma roundtrip_fails_on_declared_name :
  let known := updateTargets [address_entry "home"; address_entry "home_city"] in
  let p := PathSub "home" "city" in
  underscore_free p
  /\ (path_attr p ∈ known)
  /\ encode_name p = "home_city"
  /\ decode_name known (encode_name p) = Some (PathAttr "home_city")
  /\ decode_name known (encode_name p) <> Some p.
Proof.
  cbv zeta. split; [split; reflexivity|].
  split; [apply (bool_decide_unpack _); vm_compute; exact I|].
  split; [reflexivity|].
  split; [vm_compute; reflexivity|vm_compute; discriminate].
Qed.

(** Claim C5, amended: for every path whose attribute and subfield tokens
    contain no underscore, decoding the flat name the encoder produces
    gives back exactly the path if and only if the path's attribute is
    declared and, unless the path is a bare attribute, its flat name is not
    itself a declared attribute.  Other declared attributes may contain
    underscores. *)
Theorem decode_encode_roundtrip (known : gset string) (p : Path) :
  underscore_free p ->
  decode_name known (encode_name p) = Some p
  <-> (path_attr p ∈ known)
      /\ (p = PathAttr (path_attr p) \/ encode_name p ∉ known).
Proof.
  intros Hfree. split.
  - intros E. pose proof (decode_name_cases known (encode_name p)) as H.
    rewrite E in H. destruct H as [Hin H]. split; [exact Hin|].
    destruct (decide (encode_name p ∈ known)) as [Hn|Hn]; [left|now right].
    rewrite bool_decide_eq_true_2 in H by assumption.
    rewrite H at 1. now rewrite H.
  - intros [Hin Hfresh]. now apply decode_encode_fresh.
Qed.

Lemma decode_encode_roundtrip_witness :
  decode_name (updateTargets [address_entry "faq"; address_entry "first_name"])
              (encode_name (PathListDouble "faq" (Some 3) "1"))
  = Some (PathListDouble "faq" (Some 3) "1").
Proof.
  apply (decode_encode_roundtrip
           (updateTargets [address_entry "faq"; address_entry "first_name"])
           (PathListDouble "faq" (Some 3) "1")).
  - split; [reflexivity|exact I].
  - split.
    + apply (bool_decide_unpack _). vm_compute. exact I.
    + right. apply (bool_decide_unpack _). vm_compute. exact I.
Defined.

End CodecClaims.

(** ** What a piece of [handleSubmit] can change *)

#[local] Instance same_ui_preorder : PreOrder same_ui.
Proof.
  split.
  - intros w. repeat split.
  - intros w1 w2 w3 (A1 & A2 & A3) (B1 & B2 & B3). repeat split; congruence.
Qed.

#[local] Instance same_entity_preorder : PreOrder same_entity.
Proof. split; unfold same_entity; [intros w|intros w1 w2 w3]; congruence. Qed.

#[local] Instance others_unchanged_preorder a : PreOrder (others_unchanged a).
Proof.
  split.
  - intros w b _. reflexivity.
  - intros w1 w2 w3 H1 H2 b Hb. rewrite (H2 b Hb). now apply H1.
Qed.

Create HintDb frame discriminated.

Section Satisfies.
Context (R : relation World) `{!PreOrder R} (allow_stop : bool).

Lemma satisfies_ret {A} (a : A) : satisfies R allow_stop (ret a).
Proof. intros w sig w' [= <- <-]. split; [reflexivity|discriminate]. Qed.

Lemma satisfies_raise {A} e : satisfies R allow_stop (@raise A e).
Proof. intros w sig w' [= <- <-]. split; [reflexivity|discriminate]. Qed.

Lemma satisfies_lift_js {A} (o : option A) : satisfies R allow_stop (lift_js o).
Proof. destruct o; [apply satisfies_ret|apply satisfies_raise]. Qed.

Lemma satisfies_read_attr a : satisfies R allow_stop (read_attr a).
Proof. intros w sig w' [= <- <-]. split; [reflexivity|discriminate]. Qed.

Lemma satisfies_bind {A B} (m : Sub A) (k : A -> Sub B) :
  satisfies R allow_stop m -> (forall a, satisfies R allow_stop (k a)) ->
  satisfies R allow_stop (bind m k).
Proof.
  intros Hm Hk w sig w'. unfold bind.
  destruct (m w) as [[a| |e] w1] eqn:E; destruct (Hm _ _ _ E) as [HR Hs].
  - intros Hka. destruct (Hk a _ _ _ Hka) as [HR' Hs'].
    split; [now transitivity w1|assumption].
  - intros [= <- <-]. split; [assumption|].
    intros Hf. now elim (Hs Hf).
  - intros [= <- <-]. split; [assumption|discriminate].
Qed.

Lemma satisfies_for_each {A} (body : A -> Sub unit) l :
  (forall x, satisfies R allow_stop (body x)) ->
  satisfies R allow_stop (for_each body l).
Proof.
  intros Hb. induction l as [|x l IH]; simpl.
  - apply satisfies_ret.
  - apply satisfies_bind; [apply Hb|intros _; apply IH].
Qed.

End Satisfies.

Lemma satisfies_stop {A} R `{!PreOrder R} : satisfies R true (@stop A).
Proof. intros w sig w' [= <- <-]. split; [reflexivity|discriminate]. Qed.

Lemma satisfies_allow {A} R (m : Sub A) :
  satisfies R false m -> satisfies R true m.
Proof. intros H w sig w' E. split; [apply (H _ _ _ E)|discriminate]. Qed.

(** The primitive effects against each relation. *)
Lemma ui_write_attr b a v : satisfies same_ui b (write_attr a v).
Proof. intros w sig w' [= <- <-]. repeat split. discriminate. Qed.

Lemma ui_console_log b l : satisfies same_ui b (console_log l).
Proof. intros w sig w' [= <- <-]. repeat split. discriminate. Qed.

Lemma ui_log_list_write b f : satisfies same_ui b (log_list_write f).
Proof. intros w sig w' [= <- <-]. repeat split. discriminate. Qed.

Lemma entity_toast_error b msg : satisfies same_entity b (toast_error msg).
Proof. intros w sig w' [= <- <-]. split; [reflexivity|discriminate]. Qed.

Lemma entity_console_log b l : satisfies same_entity b (console_log l).
Proof. intros w sig w' [= <- <-]. split; [reflexivity|discriminate]. Qed.

Lemma lookup_assign_other a b v ps :
  b <> a -> lookup_prop b (assign_prop a v ps) = lookup_prop b ps.
Proof.
  intros Hne. induction ps as [|[k x] ps IH]; simpl.
  - destruct (String.eqb_spec b a); [contradiction|reflexivity].
  - destruct (String.eqb_spec a k) as [->|Hak]; simpl.
    + destruct (String.eqb_spec b k); [contradiction|reflexivity].
    + destruct (String.eqb_spec b k); [reflexivity|assumption].
Qed.

Lemma assign_prop_twice a v v' ps :
  assign_prop a v (assign_prop a v' ps) = assign_prop a v ps.
Proof.
  induction ps as [|[k x] ps IH]; simpl.
  - now rewrite String.eqb_refl.
  - destruct (String.eqb_spec a k) as [->|Hak]; simpl.
    + now rewrite String.eqb_refl.
    + destruct (String.eqb_spec a k); [contradiction|now rewrite IH].
Qed.

Lemma lookup_assign_same a v ps : lookup_prop a (assign_prop a v ps) = v.
Proof.
  induction ps as [|[k x] ps IH]; simpl.
  - now rewrite String.eqb_refl.
  - destruct (String.eqb_spec a k) as [->|Hak]; simpl.
    + now rewrite String.eqb_refl.
    + destruct (String.eqb_spec a k); [contradiction|assumption].
Qed.

Lemma others_write_attr b a v : satisfies (others_unchanged a) b (write_attr a v).
Proof.
  intros w sig w' [= <- <-]. split; [|discriminate].
  intros c Hc. simpl. now apply lookup_assign_other.
Qed.

Lemma others_toast_error b a msg : satisfies (others_unchanged a) b (toast_error msg).
Proof. intros w sig w' [= <- <-]. split; [intros c _; reflexivity|discriminate]. Qed.

Lemma others_console_log b a l : satisfies (others_unchanged a) b (console_log l).
Proof. intros w sig w' [= <- <-]. split; [intros c _; reflexivity|discriminate]. Qed.

Lemma others_log_list_write b a f : satisfies (others_unchanged a) b (log_list_write f).
Proof. intros w sig w' [= <- <-]. split; [intros c _; reflexivity|discriminate]. Qed.

#[local] Hint Resolve ui_write_attr ui_console_log ui_log_list_write
  entity_toast_error entity_console_log others_write_attr others_toast_error
  others_console_log others_log_list_write : frame.

(** Decompose a composite piece into its primitive effects. *)
Ltac frame_step :=
  lazymatch goal with
  | |- satisfies _ _ (bind _ _) => apply satisfies_bind; [tc_solve| |intros ?]
  | |- satisfies _ _ (ret _) => apply satisfies_ret; tc_solve
  | |- satisfies _ _ (raise _) => apply satisfies_raise; tc_solve
  | |- satisfies _ _ (lift_js _) => apply satisfies_lift_js; tc_solve
  | |- satisfies _ _ (read_attr _) => apply satisfies_read_attr; tc_solve
  | |- satisfies _ true stop => apply satisfies_stop; tc_solve
  | |- satisfies _ _ (if ?c then _ else _) => destruct c
  | |- satisfies _ _ (match ?x with _ => _ end) => destruct x
  | |- satisfies _ _ _ => solve [eauto with frame]
  end.
Ltac frame := repeat frame_step.

(** ** Frames of the pieces of [handleSubmit] *)

Lemma raw_step_ui st target : satisfies same_ui false (raw_step st target).
Proof.
  unfold raw_step, ensure_attr, read_attr2, write_attr2, write_attr3. frame.
Qed.

Lemma upload_step_ui st upload : satisfies same_ui false (upload_step st upload).
Proof. unfold upload_step, ensure_attr, write_attr2. frame. Qed.

Lemma merge_phase_ui st els : satisfies same_ui false (merge_phase st els).
Proof.
  unfold merge_phase. apply satisfies_bind; [tc_solve| |intros _];
    apply satisfies_for_each; try tc_solve; intros x;
    [apply raw_step_ui|apply upload_step_ui].
Qed.

Lemma validateValue_entity v name r : satisfies same_entity false (validateValue v name r).
Proof. unfold validateValue, text_length_below. destruct r; frame. Qed.

Lemma validateValue_others a v name r :
  satisfies (others_unchanged a) false (validateValue v name r).
Proof. unfold validateValue, text_length_below. destruct r; frame. Qed.

(** A rule either passes silently or fails with exactly one error toast. *)
Lemma validateValue_cases v name r w :
  validateValue v name r w = (Next true, w)
  \/ exists msg, validateValue v name r w = (Next false, with_toast (ToastError msg) w).
Proof.
  unfold validateValue, text_length_below.
  destruct r; repeat first
    [ reflexivity
    | progress (left; reflexivity)
    | solve [right; eexists; reflexivity]
    | match goal with
      | |- context [if ?c then _ else _] => destruct c
      | |- context [match ?x with _ => _ end] => destruct x
      end ].
Qed.

Lemma run_validations_entity e rules : satisfies same_entity true (run_validations e rules).
Proof.
  induction rules as [|r rules IH]; simpl; [apply satisfies_ret; tc_solve|].
  apply satisfies_bind; [tc_solve|frame|intros v].
  apply satisfies_bind; [tc_solve| |intros [|]].
  - apply satisfies_allow, validateValue_entity.
  - exact IH.
  - apply satisfies_stop; tc_solve.
Qed.

Lemma check_validations_entity e : satisfies same_entity true (check_validations e).
Proof.
  unfold check_validations. destruct (validations e);
    [apply run_validations_entity|apply satisfies_ret; tc_solve].
Qed.


Lemma same_entity_others a b (m : Sub unit) :
  satisfies same_entity b m -> satisfies (others_unchanged a) b m.
Proof.
  intros H w sig w' E. destruct (H _ _ _ E) as [He Hs]. split; [|assumption].
  intros c _. now rewrite He.
Qed.

Lemma entry_step_others st e :
  satisfies (others_unchanged (attribute e)) true (entry_step st e).
Proof.
  unfold entry_step, before_validations.
  apply satisfies_bind; [tc_solve| |intros _].
  - unfold check_required, set_checkbox, check_article, prune_list. frame.
  - apply satisfies_bind; [tc_solve| |intros _].
    + apply same_entity_others, check_validations_entity.
    + unfold check_showcase. frame.
Qed.

(** ** Error toasts of the per-descriptor checks *)

Lemma reports_of_quiet {A} (m : Sub A) : satisfies same_ui false m -> reports m.
Proof.
  intros H w sig w' E. destruct (H _ _ _ E) as [(Ht & Hq & Hl) Hs].
  repeat split; try assumption.
  destruct sig; try assumption. now elim (Hs eq_refl).
Qed.

Lemma reports_bind {A B} (m : Sub A) (k : A -> Sub B) :
  reports m -> (forall a, reports (k a)) -> reports (bind m k).
Proof.
  intros Hm Hk w sig w'. unfold bind.
  destruct (m w) as [[a| |e] w1] eqn:E; destruct (Hm _ _ _ E) as (Hq & Hl & Ht).
  - intros Hka. destruct (Hk a _ _ _ Hka) as (Hq' & Hl' & Ht').
    repeat split; try congruence.
    destruct sig; [congruence| |congruence].
    destruct Ht' as [msg Hmsg]. exists msg. congruence.
  - intros [= <- <-]. repeat split; assumption.
  - intros [= <- <-]. repeat split; assumption.
Qed.

Lemma reports_toast_stop {A} msg : reports (toast_error msg ;;; @stop A).
Proof.
  intros w sig w' [= <- <-]. repeat split. exists msg. reflexivity.
Qed.

Lemma reports_log_toast_stop {A} l msg :
  reports (console_log l ;;; toast_error msg ;;; @stop A).
Proof.
  intros w sig w' [= <- <-]. repeat split. exists msg. reflexivity.
Qed.

Lemma reports_for_each {A} (body : A -> Sub unit) l :
  (forall x, reports (body x)) -> reports (for_each body l).
Proof.
  intros Hb. induction l as [|x l IH]; simpl.
  - apply reports_of_quiet, satisfies_ret; tc_solve.
  - apply reports_bind; [apply Hb|intros _; apply IH].
Qed.

Ltac reports_step :=
  lazymatch goal with
  | |- reports (bind (toast_error _) (fun _ => stop)) => apply reports_toast_stop
  | |- reports (bind (console_log _) (fun _ => bind (toast_error _) (fun _ => stop))) =>
      apply reports_log_toast_stop
  | |- reports (bind _ _) => apply reports_bind; [|intros ?]
  | |- reports (if ?c then _ else _) => destruct c
  | |- reports (match ?x with _ => _ end) => destruct x
  | |- reports _ => apply reports_of_quiet; solve [frame]
  end.

Lemma validateValue_ok_reports v name r (k : Sub unit) :
  reports k ->
  reports (ok <- validateValue v name r ;; if ok : bool then k else stop).
Proof.
  intros Hk w sig w'. unfold bind.
  destruct (validateValue_cases v name r w) as [-> | [msg ->]].
  - apply Hk.
  - intros [= <- <-]. repeat split. exists msg. reflexivity.
Qed.

Lemma run_validations_reports e rules : reports (run_validations e rules).
Proof.
  induction rules as [|r rules IH]; simpl.
  - apply reports_of_quiet, satisfies_ret; tc_solve.
  - apply reports_bind; [apply reports_of_quiet; frame|intros v].
    now apply validateValue_ok_reports.
Qed.

Lemma entry_step_reports st e : reports (entry_step st e).
Proof.
  unfold entry_step, before_validations.
  apply reports_bind; [|intros _; apply reports_bind; [|intros _]].
  - unfold check_required, set_checkbox, check_article, prune_list.
    repeat reports_step.
  - unfold check_validations. destruct (validations e).
    + apply run_validations_reports.
    + apply reports_of_quiet, satisfies_ret; tc_solve.
  - unfold check_showcase. repeat reports_step.
Qed.

(** [for_each] stops at the first element whose body executes [return]. *)
Lemma for_each_stops_at {A} (body : A -> Sub unit) before x after w w1 w2 :
  for_each body before w = (Next tt, w1) ->
  body x w1 = (Stop, w2) ->
  for_each body (before ++ x :: after)%list w = (Stop, w2).
Proof.
  revert w. induction before as [|y before IH]; intros w; simpl.
  - intros [= <-] Hx. unfold bind. now rewrite Hx.
  - unfold bind. destruct (body y w) as [[[]| |e] w'] eqn:E; try discriminate.
    intros H1 H2. now apply IH.
Qed.

(** ** Fail-fast validation *)

Lemma run_validations_first_failure e passed failing later w wf :
  Forall (fun r => validateValue (lookup_prop (attribute e) (entity w))
                     (attributeName e) r w = (Next true, w)) passed ->
  validateValue (lookup_prop (attribute e) (entity w)) (attributeName e) failing w
  = (Next false, wf) ->
  run_validations e (passed ++ failing :: later)%list w = (Stop, wf).
Proof.
  intros Hpassed Hfail. induction Hpassed as [|r passed Hr _ IH]; simpl.
  - unfold bind, read_attr. now rewrite Hfail.
  - unfold bind, read_attr. rewrite Hr. exact IH.
Qed.

(** Every submission shows at most one error toast: exactly one when it
    returns early, and then it has queued no callback. *)
Lemma handleSubmit_toasts st els w sig w' :
  handleSubmit st els w = (sig, w') ->
  match sig with
  | Stop => (exists msg, toasts w' = (toasts w ++ [ToastError msg])%list)
            /\ timers w' = timers w
  | _ => toasts w' = toasts w
  end.
Proof.
  unfold handleSubmit, bind, showLoading.
  destruct (merge_phase st els (with_loading true w)) as [[[]| |e] wa] eqn:Em;
    destruct (merge_phase_ui _ _ _ _ _ Em) as [(T & Q & L) S]; simpl in T, Q.
  - destruct (for_each (entry_step st) (editEntries st) wa) as [[[]| |e] wb] eqn:Ee;
      destruct (reports_for_each _ _ (entry_step_reports st) _ _ _ Ee) as (Q' & L' & T').
    + unfold finish_phase. destruct (onSubmitSuccess st) as [h|].
      * intros [= <- <-]. simpl. congruence.
      * intros [= <- <-]. congruence.
    + intros [= <- <-]. destruct T' as [msg T']. split; [exists msg|]; congruence.
    + intros [= <- <-]. congruence.
  - now elim (S eq_refl).
  - intros [= <- <-]. congruence.
Qed.

(** Claim C7: validation is fail-fast.  Let a descriptor [e] with declared
    rules [passed ++ failing :: later] be reached by the loop (the merge and
    all descriptors [before] it went through), let the rules [passed] pass
    on its value and the rule [failing] fail.  Then the submission returns at
    that rule, whatever the rules [later] and the descriptors [after] are:
    they are not evaluated.  It has shown exactly one error toast, the one
    of the failing rule, and has queued no callback, so the success handler
    is never called. *)
Theorem validation_fail_fast
    st els e passed failing later before after w w0 w1 w2 wf :
  editEntries st = (before ++ e :: after)%list ->
  validations e = Some (passed ++ failing :: later)%list ->
  (showLoading ;;; merge_phase st els) w = (Next tt, w0) ->
  for_each (entry_step st) before w0 = (Next tt, w1) ->
  before_validations st e w1 = (Next tt, w2) ->
  Forall (fun r => validateValue (lookup_prop (attribute e) (entity w2))
                     (attributeName e) r w2 = (Next true, w2)) passed ->
  validateValue (lookup_prop (attribute e) (entity w2)) (attributeName e) failing w2
  = (Next false, wf) ->
  handleSubmit st els w = (Stop, wf)
  /\ (exists msg, wf = with_toast (ToastError msg) w2
                  /\ toasts wf = (toasts w ++ [ToastError msg])%list)
  /\ timers wf = timers w.
Proof.
  intros Hentries Hrules Hmerge Hbefore Hpre Hpassed Hfail.
  assert (Hsubmit : handleSubmit st els w = (Stop, wf)).
  { unfold handleSubmit. unfold bind in Hmerge |- *.
    destruct (showLoading w) as [[[]| |x] wl]; try discriminate.
    destruct (merge_phase st els wl) as [[[]| |x] wm]; try discriminate.
    injection Hmerge as ->.
    rewrite Hentries.
    rewrite (for_each_stops_at _ before e after w0 w1 wf Hbefore); [reflexivity|].
    unfold entry_step, bind. rewrite Hpre.
    unfold check_validations. rewrite Hrules.
    now rewrite (run_validations_first_failure _ _ _ _ _ _ Hpassed Hfail). }
  pose proof (handleSubmit_toasts _ _ _ _ _ Hsubmit) as [[msg Hmsg] Htimers].
  split; [exact Hsubmit|]. split; [|exact Htimers].
  destruct (validateValue_cases (lookup_prop (attribute e) (entity w2))
              (attributeName e) failing w2) as [Hc|[msg' Hc]];
    rewrite Hc in Hfail; [discriminate|].
  injection Hfail as <-. exists msg'. split; [reflexivity|].
  rewrite Hmsg. simpl in Hmsg. simpl.
  apply (f_equal (@rev _)) in Hmsg. rewrite !rev_app_distr in Hmsg.
  simpl in Hmsg. injection Hmsg as Hm Hr.
  apply (f_equal (@rev _)) in Hr. rewrite !rev_involutive in Hr.
  now rewrite Hm.
Qed.

(** ** The index of a descriptor and the size of its list *)

Lemma init_listFieldSize_wf entries entityObj :
  sizes_wf entries (init_listFieldSize entries entityObj).
Proof.
  intros i e n He Hn Ht. unfold init_listFieldSize in Hn.
  rewrite list_lookup_fmap, He in Hn. simpl in Hn. rewrite Ht in Hn.
  now injection Hn.
Qed.

Lemma add_row_wf entries sizes index e :
  entries !! index = Some e -> is_list_type (type e) = true ->
  sizes_wf entries sizes -> sizes_wf entries (add_row index sizes).
Proof.
  intros He Ht Hwf i e' n He' Hn Hnl. unfold add_row in Hn.
  destruct (sizes !! index) as [m|] eqn:Em; [|now apply (Hwf i e' n)].
  destruct (decide (i = index)) as [->|Hne].
  - rewrite He in He'. injection He' as <-. congruence.
  - rewrite list_lookup_insert_ne in Hn by congruence. now apply (Hwf i e' n).
Qed.

Lemma remove_row_wf entries sizes index e :
  entries !! index = Some e -> is_list_type (type e) = true ->
  sizes_wf entries sizes -> sizes_wf entries (remove_row index sizes).
Proof.
  intros He Ht Hwf i e' n He' Hn Hnl. unfold remove_row in Hn.
  destruct (sizes !! index) as [m|] eqn:Em; [|now apply (Hwf i e' n)].
  destruct (decide (i = index)) as [->|Hne].
  - rewrite He in He'. injection He' as <-. congruence.
  - rewrite list_lookup_insert_ne in Hn by congruence. now apply (Hwf i e' n).
Qed.

Lemma fromEntries_lookup_notin (l : list (string * nat)) (m : gmap string nat) k :
  k ∉ l.*1 ->
  foldl (fun m kv => <[kv.1 := kv.2]> m) m l !! k = m !! k.
Proof.
  revert m. induction l as [|[k' v'] l IH]; intros m Hk; simpl; [reflexivity|].
  rewrite fmap_cons in Hk. apply not_elem_of_cons in Hk as [Hne Hk].
  rewrite IH by assumption. simpl in *. now rewrite lookup_insert_ne.
Qed.

Lemma fromEntries_lookup_in (l : list (string * nat)) (m : gmap string nat) k v :
  NoDup l.*1 -> (k, v) ∈ l ->
  foldl (fun m kv => <[kv.1 := kv.2]> m) m l !! k = Some v.
Proof.
  revert m. induction l as [|[k' v'] l IH]; intros m Hnd Hin; simpl.
  - now apply elem_of_nil in Hin.
  - rewrite fmap_cons in Hnd. apply NoDup_cons in Hnd as [Hk' Hnd].
    apply elem_of_cons in Hin as [[= -> ->]|Hin].
    + rewrite fromEntries_lookup_notin by assumption. simpl.
      apply lookup_insert_eq.
    + now apply IH.
Qed.

Lemma editEntryIdx_lookup entries i e :
  NoDup (attribute <$> entries) -> entries !! i = Some e ->
  editEntryIdx entries !! attribute e = Some i.
Proof.
  intros Hnd He. unfold editEntryIdx, fromEntries.
  apply fromEntries_lookup_in.
  - rewrite fmap_imap.
    rewrite (imap_ext _ (const attribute)) by reflexivity.
    now rewrite imap_const.
  - now apply (elem_of_lookup_imap_2 (fun index e => (attribute e, index))).
Qed.

Lemma max_idx_of_non_list st e :
  NoDup (attribute <$> editEntries st) ->
  sizes_wf (editEntries st) (listFieldSize st) ->
  e ∈ editEntries st -> is_list_type (type e) = false ->
  max_idx_of st (attribute e) = None \/ max_idx_of st (attribute e) = Some 0%nat.
Proof.
  intros Hnd Hwf Hin Ht. apply list_elem_of_lookup in Hin as [i Hi].
  unfold max_idx_of. rewrite (editEntryIdx_lookup _ _ _ Hnd Hi).
  destruct (listFieldSize st !! i) as [n|] eqn:En; [right|now left].
  now rewrite (Hwf i e n Hi En Ht).
Qed.

(** ** Required fields and checkboxes *)










(** ** Merging the upload results *)

Section UploadMerge.
Import JsString.






End UploadMerge.


(** ** Boundaries of the validation rules *)

(** Claim C6: the rule TextLengthBelow30 passes a string of length exactly
    30 and fails one of length 31, and passes every falsy (absent) value;
    the rule Price fails for ["10000"], passes for ["9999"] and fails for
    ["0"].  A failing rule shows its one error toast. *)
Theorem validation_boundaries (s30 s31 : string) (absent : Value)
    (attributeName : string) (w : World) :
  String.length s30 = 30%nat ->
  String.length s31 = 31%nat ->
  truthy absent = false ->
  validateValue (VStr s30) attributeName TextLengthBelow30 w = (Next true, w)
  /\ validateValue (VStr s31) attributeName TextLengthBelow30 w
     = (Next false, with_toast (ToastError (too_long_30 attributeName)) w)
  /\ validateValue absent attributeName TextLengthBelow30 w = (Next true, w)
  /\ validateValue (VStr "10000") attributeName Price w
     = (Next false, with_toast (ToastError (out_of_price_range attributeName)) w)
  /\ validateValue (VStr "9999") attributeName Price w = (Next true, w)
  /\ validateValue (VStr "0") attributeName Price w
     = (Next false, with_toast (ToastError (out_of_price_range attributeName)) w).
Proof.
  intros H30 H31 Habsent.
  assert (T30 : truthy (VStr s30) = true) by (destruct s30; [discriminate|reflexivity]).
  assert (T31 : truthy (VStr s31) = true) by (destruct s31; [discriminate|reflexivity]).
  unfold validateValue, text_length_below.
  rewrite T30, T31, Habsent, H30, H31.
  repeat split; reflexivity.
Qed.

Lemma validation_boundaries_witness :
  validateValue (VStr "abcdefghijklmnopqrstuvwxyz0123") "Name" TextLengthBelow30 empty_world
  = (Next true, empty_world)
  /\ validateValue (VStr "abcdefghijklmnopqrstuvwxyz01234") "Name" TextLengthBelow30
       empty_world
     = (Next false, with_toast (ToastError (too_long_30 "Name")) empty_world)
  /\ validateValue VUndefined "Name" TextLengthBelow30 empty_world
     = (Next true, empty_world).
Proof.
  destruct (validation_boundaries "abcdefghijklmnopqrstuvwxyz0123"
              "abcdefghijklmnopqrstuvwxyz01234" VUndefined "Name" empty_world
              eq_refl eq_refl eq_refl) as (H1 & H2 & H3 & _).
  exact (conj H1 (conj H2 H3)).
Defined.

(** ** The deferred success callback *)

(** Claim C8 does not hold of the code.  The [try] block of [handleSubmit]
    only queues the callback; the handler runs later, from the timer phase,
    outside the [try].  When the handler throws, for a submission that passed
    validation: the [catch] branch has not run, the exception is uncaught,
    nothing is logged, and the loading indicator stays on (the callback's
    [hideLoading] is skipped too).  No toast is shown. *)
Theorem success_handler_exception_escapes st els w w' h msg :
  onSubmitSuccess st = Some h ->
  (forall v, h v = Threw msg) ->
  timers w = [] ->
  handleSubmit st els w = (Next tt, w') ->
  loading w' = true
  /\ timers w' = [mkTimer 1000 h]
  /\ run_timers w'
     = ([HandlerError msg], mkWorld (entity w') (toasts w') (console w') true []).
Proof.
  intros Hh Hthrow Hq Hsubmit.
  unfold handleSubmit, bind, showLoading in Hsubmit.
  destruct (merge_phase st els (with_loading true w)) as [[[]| |e] wa] eqn:Em;
    try discriminate.
  destruct (merge_phase_ui _ _ _ _ _ Em) as [(_ & Qa & La) _]. simpl in Qa, La.
  destruct (for_each (entry_step st) (editEntries st) wa) as [[[]| |e] wb] eqn:Ee;
    try discriminate.
  destruct (reports_for_each _ _ (entry_step_reports st) _ _ _ Ee) as (Qb & Lb & _).
  unfold finish_phase in Hsubmit. rewrite Hh in Hsubmit.
  injection Hsubmit as <-.
  assert (Hl : loading wb = true) by congruence.
  assert (Ht : timers wb = []) by congruence.
  unfold run_timers. cbn. rewrite Hl, Ht. cbn.
  unfold success_callback. rewrite Hthrow. repeat split.
Qed.

Lemma success_handler_exception_escapes_witness :
  run_timers (snd (handleSubmit throwing_form [plain_control "name" "Ann"] empty_world))
  = ([HandlerError "boom"],
     mkWorld [("name", VStr "Ann")] [] [] true []).
Proof.
  destruct (success_handler_exception_escapes throwing_form
              [plain_control "name" "Ann"] empty_world
              (snd (handleSubmit throwing_form [plain_control "name" "Ann"] empty_world))
              (fun _ => Threw "boom") "boom" eq_refl (fun _ => eq_refl) eq_refl eq_refl)
    as (_ & _ & H).
  exact H.
Defined.

(** ** Hidden descriptors and list pruning *)

(** Claim C4 does not hold of the code: [handleSubmit] never reads
    [condition].  A descriptor with [condition = false] is not rendered, so
    the form has no control for it, yet its required-field check runs: with
    no value the submission is rejected with [Field is required], and with
    a value it goes through, so the outcome depends on the hidden
    descriptor's entity value.  A hidden Article descriptor without a value
    makes the Article check throw. *)
Lemma hidden_descriptor_still_checked :
  rendered (mkEditEntry "nickname" "Nickname" Text true None VUndefined (Some false))
  = false
  /\ handleSubmit hidden_required_form [] empty_world
     = (Stop, mkWorld [] [ToastError ("Field is required: " ++ JsString.dquote
                                      ++ "Nickname" ++ JsString.dquote)]
                [] true [])
  /\ fst (handleSubmit hidden_required_form []
            (with_entity [("nickname", VStr "Nick")] empty_world))
     = Next tt
  /\ fst (handleSubmit hidden_article_form [] empty_world) = Raise TypeError.
Proof. repeat split; vm_compute; reflexivity. Qed.

(** The pruning filter keeps no scalar row, whatever its index. *)
Lemma keep_entry_string max_idx_to_take k s :
  keep_entry max_idx_to_take (k, VStr s) = false.
Proof.
  unfold keep_entry. cbn [fst snd]. destruct (JsString.parseInt k); [|reflexivity].
  cbn [typeof_object]. now rewrite andb_false_r.
Qed.

(** The pruning filter on a row that is an object: kept exactly when its
    index is below the size and both paired positions are present. *)
Lemma keep_entry_pair max_idx_to_take i arr ps :
  keep_entry max_idx_to_take (JsString.string_of_nat i, VObj arr ps)
  = (i <? max_idx_to_take)%nat && has_prop "0" ps && has_prop "1" ps.
Proof.
  unfold keep_entry. cbn [fst snd]. rewrite parseInt_string_of_nat.
  cbn [truthy typeof_object]. rewrite !andb_true_r.
  destruct (Nat.ltb_spec i max_idx_to_take), (Z.ltb_spec (Z.of_nat i) (Z.of_nat max_idx_to_take));
    try lia; now rewrite andb_assoc.
Qed.

(** Claim C2 does not hold of the code for TextList: the pruning filter
    asks every row, of either list type, to be an object with positions 0 and
    1.  A TextList with two rows within its size of 2 is merged as
    [["red", "blue"]] and pruned to the empty object: both rows are lost. *)
Lemma text_list_rows_lost_to_pruning :
  (exists w1,
     merge_phase tags_form tags_controls empty_world = (Next tt, w1)
     /\ lookup_prop "tags" (entity w1) = array_of_list [VStr "red"; VStr "blue"]
     /\ exists w2, prune_list tags_form tags_entry w1 = (Next tt, w2)
                   /\ lookup_prop "tags" (entity w2) = VObj false [])
  /\ exists w', handleSubmit tags_form tags_controls empty_world = (Next tt, w')
                /\ entity w' = [("tags", VObj false [])].
Proof.
  split.
  - eexists. split; [vm_compute; reflexivity|]. split; [reflexivity|].
    eexists. split; [vm_compute; reflexivity|reflexivity].
  - eexists. split; [vm_compute; reflexivity|reflexivity].
Qed.

(** ** Instances on a sign-up form and a consent form *)

Lemma validation_fail_fast_witness :
  handleSubmit signup_form [plain_control "name" long_name] empty_world
  = (Stop, mkWorld [("name", VStr long_name)] [ToastError (too_long_30 "Name")]
             [] true []).
Proof.
  pose (w2 := mkWorld [("name", VStr long_name)] [] [] true []).
  destruct (validation_fail_fast signup_form [plain_control "name" long_name]
              name_entry [RequiredField] TextLengthBelow30 [Email] [] [email_entry]
              empty_world w2 w2 w2 (with_toast (ToastError (too_long_30 "Name")) w2)
              eq_refl eq_refl eq_refl eq_refl eq_refl
              ltac:(repeat constructor) eq_refl) as (H & _).
  exact H.
Defined.



(** * Further properties of the component *)

(** ** The regular expression matcher *)

Section RegexFacts.
Import Regex.

Lemma append_nil_r (s : string) : s ++ "" = s.
Proof.
  induction s as [|c s IH]; [reflexivity|].
  change (String c s ++ "") with (String c (s ++ "")). now rewrite IH.
Qed.

Lemma append_assoc (a b c : string) : (a ++ b) ++ c = a ++ (b ++ c).
Proof.
  induction a as [|x a IH]; [reflexivity|].
  change ((String x a ++ b) ++ c) with (String x ((a ++ b) ++ c)).
  now rewrite IH.
Qed.

Lemma append_eq_nil (a b : string) : a ++ b = "" -> a = "" /\ b = "".
Proof.
  destruct a as [|x a].
  - change ("" ++ b) with b. now intros ->.
  - change (String x a ++ b) with (String x (a ++ b)). discriminate.
Qed.

Lemma append_eq_cons (a b : string) c s :
  a ++ b = String c s ->
  (a = "" /\ b = String c s) \/ exists a', a = String c a' /\ s = a' ++ b.
Proof.
  destruct a as [|x a].
  - change ("" ++ b) with b. intros ->. now left.
  - change (String x a ++ b) with (String x (a ++ b)).
    intros [= -> <-]. right. now exists a.
Qed.

Lemma nullable_spec r : nullable r = true <-> regex_lang r "".
Proof.
  induction r as [| |p|r1 IH1 r2 IH2|r1 IH1 r2 IH2|r IH]; simpl.
  - split; [discriminate|inversion 1].
  - split; [constructor|reflexivity].
  - split; [discriminate|inversion 1].
  - rewrite andb_true_iff, IH1, IH2. split.
    + intros [H1 H2]. exact (lang_seq _ _ "" "" H1 H2).
    + inversion 1 as [| |r1' r2' s1 s2 H1 H2 E1 E2| | | |]; subst.
      apply append_eq_nil in E2 as [-> ->]. now split.
  - rewrite orb_true_iff, IH1, IH2. split.
    + intros [H|H]; [now apply lang_alt_l|now apply lang_alt_r].
    + inversion 1; subst; [now left|now right].
  - split; [constructor|reflexivity].
Qed.

Lemma star_cons_inv_gen sr cs :
  regex_lang sr cs ->
  forall r c s, sr = Star r -> cs = String c s ->
  exists s1 s2, s = s1 ++ s2 /\ regex_lang r (String c s1) /\ regex_lang (Star r) s2.
Proof.
  induction 1 as [| | | | | |r' t1 t2 H1 _ H2 IH2]; intros r0 c0 s0 Er Ec;
    try discriminate.
  injection Er as ->.
  apply append_eq_cons in Ec as [[-> ->]|(a' & -> & ->)].
  - now apply IH2.
  - now exists a', t2.
Qed.

Lemma star_cons_inv r c s :
  regex_lang (Star r) (String c s) ->
  exists s1 s2, s = s1 ++ s2 /\ regex_lang r (String c s1) /\ regex_lang (Star r) s2.
Proof. intros H. now apply (star_cons_inv_gen _ _ H). Qed.

Lemma deriv_spec c r s : regex_lang (deriv c r) s <-> regex_lang r (String c s).
Proof.
  revert s. induction r as [| |p|r1 IH1 r2 IH2|r1 IH1 r2 IH2|r IH]; intros s; simpl.
  - split; inversion 1.
  - split; inversion 1.
  - destruct (p c) eqn:Hp; split.
    + inversion 1; subst. now constructor.
    + inversion 1; subst. constructor.
    + inversion 1.
    + inversion 1; subst. congruence.
  - assert (Hseq : regex_lang (Seq (deriv c r1) r2) s
                   <-> exists a b, s = a ++ b /\ regex_lang r1 (String c a)
                                   /\ regex_lang r2 b).
    { split.
      - inversion 1 as [| |r1' r2' s1 s2 H1 H2| | | |]; subst.
        exists s1, s2. rewrite <- IH1. now repeat split.
      - intros (a & b & -> & H1 & H2). constructor; [now apply IH1|assumption]. }
    assert (Hsplit : regex_lang (Seq r1 r2) (String c s)
                     <-> (exists a b, s = a ++ b /\ regex_lang r1 (String c a)
                                      /\ regex_lang r2 b)
                         \/ (regex_lang r1 "" /\ regex_lang r2 (String c s))).
    { split.
      - inversion 1 as [| |r1' r2' s1 s2 H1 H2 E1 E2| | | |]; subst.
        apply append_eq_cons in E2 as [[-> ->]|(a' & -> & ->)].
        + now right.
        + left. now exists a', s2.
      - intros [(a & b & -> & H1 & H2)|[H1 H2]].
        + exact (lang_seq _ _ (String c a) b H1 H2).
        + exact (lang_seq _ _ "" (String c s) H1 H2). }
    rewrite Hsplit. destruct (nullable r1) eqn:Hn.
    + split.
      * inversion 1; subst; [left; now apply Hseq|right].
        split; [now apply nullable_spec|now apply IH2].
      * intros [H|[H1 H2]]; [apply lang_alt_l; now apply Hseq|].
        apply lang_alt_r. now apply IH2.
    + rewrite Hseq. split; [now left|]. intros [H|[H1 H2]]; [assumption|].
      apply nullable_spec in H1. congruence.
  - split.
    + inversion 1; subst; [apply lang_alt_l; now apply IH1|apply lang_alt_r; now apply IH2].
    + inversion 1; subst; [apply lang_alt_l; now apply IH1|apply lang_alt_r; now apply IH2].
  - split.
    + inversion 1 as [| |r1' r2' s1 s2 H1 H2| | | |]; subst.
      apply IH in H1. exact (lang_star_cons _ (String c s1) s2 H1 H2).
    + intros H. apply star_cons_inv in H as (s1 & s2 & -> & H1 & H2).
      constructor; [now apply IH|assumption].
Qed.

Lemma matches_spec r s : matches r s = true <-> regex_lang r s.
Proof.
  revert r. induction s as [|c s IH]; intros r; simpl.
  - apply nullable_spec.
  - rewrite IH. apply deriv_spec.
Qed.

Lemma star_class_spec p s : regex_lang (Star (Class p)) s <-> all_chars p s = true.
Proof.
  split.
  - intros H. remember (Star (Class p)) as sr eqn:Er.
    induction H as [| | | | | |r' s1 s2 H1 _ H2 IH2]; try discriminate; [reflexivity|].
    injection Er as ->. inversion H1 as [|p' c Hc| | | | |]; subst.
    change (String c "" ++ s2) with (String c s2). cbn.
    now rewrite (IH2 eq_refl), Hc.
  - induction s as [|c s IH]; [constructor|].
    cbn. intros H. apply andb_true_iff in H as [Hc Hs].
    exact (lang_star_cons _ (String c "") s (lang_class p c Hc) (IH Hs)).
Qed.

Lemma plus_class_spec p s :
  regex_lang (plus (Class p)) s <-> s <> "" /\ all_chars p s = true.
Proof.
  unfold plus. split.
  - inversion 1 as [| |r1' r2' s1 s2 H1 H2| | | |]; subst.
    inversion H1 as [|p' c Hc| | | | |]; subst. apply star_class_spec in H2.
    change (String c "" ++ s2) with (String c s2). cbn.
    split; [discriminate|]. now rewrite H2, Hc.
  - intros [Hne H]. destruct s as [|c s]; [contradiction|].
    cbn in H. apply andb_true_iff in H as [Hc Hs].
    exact (lang_seq _ _ (String c "") s (lang_class p c Hc)
             (proj2 (star_class_spec p s) Hs)).
Qed.

End RegexFacts.

(** ** What the validation rules accept *)

Section RuleFacts.
Import JsString Regex.

Lemma all_digits_chars s : all_digits s <-> all_chars is_digit s = true.
Proof.
  unfold all_digits. induction s as [|c s IH]; simpl; [easy|].
  destruct (is_digit c); simpl; [|easy].
  destruct (span_digits s) as [d rest]. rewrite <- IH. split.
  - now intros [= -> ->].
  - now intros [= -> ->].
Qed.

Lemma string_of_nat_chars n : all_chars is_digit (string_of_nat n) = true.
Proof. apply all_digits_chars, string_of_uint_digits. Qed.

Lemma decimal_re_digits s : all_chars is_digit s = true -> matches decimal_re s = true.
Proof.
  intros H. apply matches_spec. unfold decimal_re.
  rewrite <- (append_nil_r s).
  apply lang_seq; [now apply star_class_spec|].
  apply (lang_seq _ _ "" ""); [apply lang_alt_l; constructor|constructor].
Qed.

Lemma decimal_re_fraction d f :
  all_chars is_digit d = true -> all_chars is_digit f = true ->
  matches decimal_re (d ++ "." ++ f) = true.
Proof.
  intros Hd Hf. apply matches_spec. unfold decimal_re.
  apply lang_seq; [now apply star_class_spec|].
  apply (lang_seq _ _ "." f); [|now apply star_class_spec].
  apply lang_alt_r. now constructor.
Qed.

Lemma truthy_string_of_nat n : truthy (VStr (string_of_nat n)) = true.
Proof.
  pose proof (string_of_nat_nonempty n). cbn.
  destruct (string_of_nat n); [contradiction|reflexivity].
Qed.

(** Numbers up to 9999 print in at most four digits. *)
Lemma string_of_nat_short n :
  Z.of_nat n <= 9999 -> (String.length (string_of_nat n) <= 4)%nat.
Proof.
  intros Hn.
  assert (Hall : forallb (fun k => (String.length (string_of_nat k) <=? 4)%nat)
                   (List.seq 0 (Z.to_nat 10000)) = true) by (vm_compute; reflexivity).
  rewrite forallb_forall in Hall.
  apply Nat.leb_le, Hall, in_seq. lia.
Qed.

Lemma has_char_digits c s :
  is_digit c = false -> all_chars is_digit s = true -> has_char c s = false.
Proof.
  intros Hc. induction s as [|x s IH]; [reflexivity|]. cbn.
  intros H. apply andb_true_iff in H as [Hx Hs]. rewrite (IH Hs), orb_false_r.
  destruct (Ascii.eqb_spec x c) as [->|]; [congruence|reflexivity].
Qed.

(** The Number rule on a natural number written in decimal: accepted
    exactly from 1 to 999. *)
Theorem number_rule_range (n : nat) (attributeName : string) (w : World) :
  validateValue (VStr (string_of_nat n)) attributeName Number w = (Next true, w)
  <-> (1 <= n <= 999)%nat.
Proof.
  unfold validateValue. rewrite truthy_string_of_nat.
  rewrite (decimal_re_digits _ (string_of_nat_chars n)), parseInt_string_of_nat.
  cbn [negb orb].
  destruct (Nat.ltb_spec 10 (String.length (string_of_nat n))) as [Hlong|Hshort].
  - cbn [orb]. split; [discriminate|]. intros Hn.
    pose proof (string_of_nat_short n ltac:(lia)). lia.
  - cbn [orb].
    destruct (Z.leb_spec (Z.of_nat n) 0), (Z.ltb_spec 999 (Z.of_nat n));
      cbn [orb]; split; try discriminate; try lia; reflexivity.
Qed.

Lemma Qle_bool_int (a b : Z) : Qle_bool (a # 1) (b # 1) = (a <=? b).
Proof. unfold Qle_bool. cbn. now rewrite !Z.mul_1_r. Qed.

Lemma parseFloat_digits s :
  s <> "" -> all_chars is_digit s = true ->
  parseFloat s = Some (digits_value s 0 # 1).
Proof.
  intros Hne Hd. unfold parseFloat.
  assert (Hsp : drop_spaces s = s).
  { destruct s as [|c s]; [reflexivity|]. cbn in *.
    apply andb_true_iff in Hd as [Hc _].
    now destruct (is_digit_facts c Hc) as (-> & _). }
  rewrite Hsp. apply all_digits_chars in Hd. rewrite Hd.
  rewrite append_nil_r. destruct s; [contradiction|reflexivity].
Qed.

Lemma digits_value_string_of_nat n : digits_value (string_of_nat n) 0 = Z.of_nat n.
Proof.
  pose proof (parseInt_string_of_nat n) as H.
  rewrite parseInt_digits in H
    by (apply string_of_nat_nonempty || apply string_of_uint_digits).
  now injection H.
Qed.

(** The Price rule: a natural number written in decimal is accepted exactly
    from 1 to 9999, and digits with more than two fraction digits are never
    accepted. *)
Theorem price_rule_range (n : nat) (d f : string) (attributeName : string) (w : World) :
  (validateValue (VStr (string_of_nat n)) attributeName Price w = (Next true, w)
   <-> 1 <= Z.of_nat n <= 9999)
  /\ (all_chars is_digit d = true -> all_chars is_digit f = true ->
      (2 < String.length f)%nat ->
      validateValue (VStr (d ++ "." ++ f)) attributeName Price w
      = (Next false, with_toast (ToastError (invalid_number_msg attributeName)) w)).
Proof.
  split.
  - unfold validateValue. rewrite truthy_string_of_nat.
    rewrite (decimal_re_digits _ (string_of_nat_chars n)). cbn [negb orb].
    rewrite split_on_no_char
      by (apply has_char_digits; [reflexivity|apply string_of_nat_chars]).
    cbn [lookup list_lookup].
    rewrite parseFloat_digits
      by (apply string_of_nat_nonempty || apply string_of_nat_chars).
    rewrite digits_value_string_of_nat.
    change 0%Q with (0 # 1). change 9999%Q with (9999 # 1). rewrite !Qle_bool_int.
    destruct (Nat.ltb_spec 100 (String.length (string_of_nat n))) as [Hlong|Hshort].
    + cbn [orb]. split; [discriminate|]. intros Hn.
      pose proof (string_of_nat_short n ltac:(lia)). lia.
    + cbn [orb].
      destruct (Z.leb_spec (Z.of_nat n) 0), (Z.leb_spec (Z.of_nat n) 9999);
        cbn [orb negb]; split; try discriminate; try lia; reflexivity.
  - intros Hd Hf Hlen. unfold validateValue.
    assert (Ht : truthy (VStr (d ++ "." ++ f)) = true).
    { destruct d; reflexivity. }
    rewrite Ht, (decimal_re_fraction d f Hd Hf). cbn [negb].
    destruct (100 <? String.length (d ++ "." ++ f))%nat; [reflexivity|].
    cbn [orb].
    change (d ++ "." ++ f) with (d ++ String "." f).
    rewrite split_on_app by (now apply has_char_digits).
    rewrite split_on_no_char by (now apply has_char_digits).
    cbn [lookup list_lookup].
    apply Nat.ltb_lt in Hlen. rewrite Hlen.
    destruct f; [discriminate|reflexivity].
Qed.

(** The UserName rule accepts exactly the non-empty strings over lower-case
    letters, digits and the underscore; a value that is not a string is
    rejected. *)
Theorem username_rule_accepts (value : Value) (attributeName : string) (w : World) :
  validateValue value attributeName UserName w = (Next true, w)
  <-> exists s, value = VStr s /\ s <> "" /\ all_chars username_class s = true.
Proof.
  unfold validateValue. destruct value as [| |b|n|s|a ps];
    try (split; [discriminate|intros (s' & [=] & _)]).
  destruct (matches username_re s) eqn:Hm; cbn [negb].
  - split; [intros _|reflexivity]. exists s. split; [reflexivity|].
    now apply plus_class_spec, matches_spec.
  - split; [discriminate|]. intros (s' & [= <-] & Hne & Hall).
    assert (matches username_re s = true)
      by (apply matches_spec, plus_class_spec; now split).
    congruence.
Qed.

End RuleFacts.

Section MoreRuleFacts.
Import JsString Regex.

Lemma lang_star_any s : regex_lang (Star any) s.
Proof. apply star_class_spec. induction s; [reflexivity|assumption]. Qed.

Lemma lang_lit c s : regex_lang (lit c) s <-> s = String c "".
Proof.
  unfold lit. split.
  - inversion 1 as [|p c' Hc| | | | |]; subst.
    now apply Ascii.eqb_eq in Hc as ->.
  - intros ->. constructor. apply Ascii.eqb_refl.
Qed.

Lemma lang_word s : regex_lang (plus non_space) s <-> word s.
Proof. apply plus_class_spec. Qed.

Lemma email_re_spec s :
  test email_re s = true
  <-> exists pre a b c post,
        s = pre ++ a ++ "@" ++ b ++ "." ++ c ++ post /\ word a /\ word b /\ word c.
Proof.
  unfold test. rewrite matches_spec. split.
  - inversion 1 as [| |? ? pre rest Hpre Hrest| | | |]; subst.
    inversion Hrest as [| |? ? e post He Hpost| | | |]; subst.
    unfold email_re in He.
    inversion He as [| |? ? a r1 Ha Hr1| | | |]; subst.
    inversion Hr1 as [| |? ? at_ r2 Hat Hr2| | | |]; subst.
    inversion Hr2 as [| |? ? b r3 Hb Hr3| | | |]; subst.
    inversion Hr3 as [| |? ? dot c Hdot Hc| | | |]; subst.
    apply lang_lit in Hat as ->. apply lang_lit in Hdot as ->.
    exists pre, a, b, c, post.
    rewrite !append_assoc. repeat split; now apply lang_word.
  - intros (pre & a & b & c & post & -> & Ha & Hb & Hc).
    apply lang_seq; [apply lang_star_any|].
    replace (a ++ "@" ++ b ++ "." ++ c ++ post)
      with ((a ++ "@" ++ b ++ "." ++ c) ++ post) by (now rewrite !append_assoc).
    apply lang_seq; [|apply lang_star_any].
    unfold email_re.
    apply lang_seq; [now apply lang_word|].
    apply (lang_seq _ _ "@"); [now apply lang_lit|].
    apply lang_seq; [now apply lang_word|].
    apply (lang_seq _ _ "."); [now apply lang_lit|now apply lang_word].
Qed.

(** The Email rule lets every value that is not a string through, and
    accepts a string exactly when it has at most 100 characters and contains
    [local@domain.tld] somewhere, the three parts non-empty and free of
    white space. *)
Theorem email_rule_accepts (value : Value) (attributeName : string) (w : World) :
  validateValue value attributeName Email w = (Next true, w)
  <-> match value with
      | VStr s =>
          (String.length s <= 100)%nat
          /\ exists pre a b c post,
               s = pre ++ a ++ "@" ++ b ++ "." ++ c ++ post
               /\ word a /\ word b /\ word c
      | _ => True
      end.
Proof.
  unfold validateValue. destruct value as [| |b|n|s|a ps]; try easy.
  rewrite <- email_re_spec.
  destruct (Nat.ltb_spec 100 (String.length s)) as [Hlong|Hshort]; cbn [orb].
  - split; [discriminate|]. intros [Hlen _]. lia.
  - destruct (test email_re s); cbn [negb]; split; easy.
Qed.

Lemma drop_spaces_blank s : all_chars is_space s = true -> drop_spaces s = "".
Proof.
  induction s as [|c s IH]; [reflexivity|]. cbn.
  intros H. apply andb_true_iff in H as [-> Hs]. now apply IH.
Qed.

(** A string of white space only: the required-field check at the head of
    the loop accepts it, the RequiredField rule rejects it. *)
Theorem blank_string_required_twice (e : EditEntry) (s : string) (w : World) :
  isRequired e = true ->
  s <> "" ->
  all_chars is_space s = true ->
  lookup_prop (attribute e) (entity w) = VStr s ->
  check_required e w = (Next tt, w)
  /\ validateValue (VStr s) (attributeName e) RequiredField w
     = (Next false, with_toast (ToastError (attributeName e ++ " is required!")) w).
Proof.
  intros Hreq Hne Hblank Hval.
  assert (Ht : truthy (VStr s) = true) by (destruct s; [contradiction|reflexivity]).
  split.
  - unfold check_required, bind, read_attr. now rewrite Hreq, Hval, Ht.
  - unfold validateValue, trim. rewrite Ht, (drop_spaces_blank s Hblank). reflexivity.
Qed.

Lemma blank_string_required_twice_witness :
  check_required name_entry (with_entity [("name", VStr "   ")] empty_world)
  = (Next tt, with_entity [("name", VStr "   ")] empty_world).
Proof.
  apply (blank_string_required_twice name_entry "   "); try reflexivity. discriminate.
Defined.

(** A Checkbox descriptor with the CheckboxChecked rule is accepted exactly
    when the one tracked checkbox state is true, whatever its own control
    submitted: the rule runs on the value the loop has just written. *)
Theorem checkbox_rule_uses_tracked_state (st : FormState) (e : EditEntry) (w : World) :
  type e = Checkbox ->
  isRequired e = false ->
  validations e = Some [CheckboxChecked] ->
  default 0%nat (max_idx_of st (attribute e)) = 0%nat ->
  entry_step st e w
  = let w' := with_entity
                (assign_prop (attribute e) (VBool (checkboxFieldValue st)) (entity w)) w in
    if checkboxFieldValue st then (Next tt, w')
    else (Stop, with_toast (ToastError (error_for (attributeName e)
                                        ++ "Please check the box.")) w').
Proof.
  intros Ht Hreq Hrules Hmax.
  unfold entry_step, before_validations, check_required, set_checkbox, prune_list,
    check_validations.
  rewrite Ht, Hreq, Hrules. cbn [EditEntryType_eqb].
  destruct (max_idx_of st (attribute e)) as [n|]; cbn in Hmax; subst;
    cbn [Nat.ltb Nat.leb];
    unfold bind, ret, write_attr, run_validations, bind, read_attr; cbn;
    rewrite lookup_assign_same; cbn;
    destruct (checkboxFieldValue st); reflexivity.
Qed.

Lemma checkbox_rule_uses_tracked_state_witness :
  let e := mkEditEntry "terms" "Terms" Checkbox false (Some [CheckboxChecked])
             VUndefined None in
  let st := mkFormState [e] [0%nat] false [] None in
  fst (entry_step st e (with_entity [("terms", VStr "on")] empty_world)) = Stop.
Proof.
  intros e st.
  rewrite (checkbox_rule_uses_tracked_state st e); reflexivity.
Defined.

End MoreRuleFacts.

(** ** What a submission changes *)

Section SubmitFacts.

#[local] Instance declared_only_preorder known : PreOrder (declared_only known).
Proof.
  split.
  - intros w b _. reflexivity.
  - intros w1 w2 w3 H1 H2 b Hb. rewrite (H2 b Hb). now apply H1.
Qed.

Lemma declared_write_attr known b a v :
  a ∈ known -> satisfies (declared_only known) b (write_attr a v).
Proof.
  intros Ha w sig w' [= <- <-]. split; [|discriminate].
  intros c Hc. simpl. apply lookup_assign_other. intros ->. contradiction.
Qed.

Lemma declared_toast_error known b msg :
  satisfies (declared_only known) b (toast_error msg).
Proof. intros w sig w' [= <- <-]. split; [intros c _; reflexivity|discriminate]. Qed.

Lemma declared_console_log known b l :
  satisfies (declared_only known) b (console_log l).
Proof. intros w sig w' [= <- <-]. split; [intros c _; reflexivity|discriminate]. Qed.

Lemma declared_log_list_write known b f :
  satisfies (declared_only known) b (log_list_write f).
Proof. intros w sig w' [= <- <-]. split; [intros c _; reflexivity|discriminate]. Qed.

#[local] Hint Resolve declared_write_attr declared_toast_error declared_console_log
  declared_log_list_write : frame.

Lemma satisfies_for_each_in {A} R `{!PreOrder R} b (body : A -> Sub unit) (l : list A) :
  (forall x, x ∈ l -> satisfies R b (body x)) -> satisfies R b (for_each body l).
Proof.
  induction l as [|x l IH]; intros Hb; simpl.
  - apply satisfies_ret; tc_solve.
  - apply satisfies_bind; [tc_solve| |intros _].
    + apply Hb. apply elem_of_cons. now left.
    + apply IH. intros y Hy. apply Hb. apply elem_of_cons. now right.
Qed.

Lemma decode_name_declared known name p :
  decode_name known name = Some p -> path_attr p ∈ known.
Proof.
  intros H. pose proof (decode_name_cases known name) as Hc.
  rewrite H in Hc. apply Hc.
Qed.

Lemma raw_step_declared st target :
  satisfies (declared_only (updateTargets (editEntries st))) false (raw_step st target).
Proof.
  unfold raw_step. destruct (String.eqb (target_name target) "");
    [apply satisfies_ret; tc_solve|].
  destruct (decode_name _ _) as [p|] eqn:E; [|apply satisfies_ret; tc_solve].
  apply decode_name_declared in E.
  destruct p; cbn [path_attr] in E;
    unfold ensure_attr, read_attr2, write_attr2, write_attr3; frame.
Qed.

Lemma upload_step_declared st upload :
  satisfies (declared_only (updateTargets (editEntries st))) false (upload_step st upload).
Proof.
  unfold upload_step.
  destruct (bool_decide (upload.1 ∈ _)) eqn:E1.
  - apply bool_decide_eq_true_1 in E1. frame.
  - destruct (JsString.includes upload.1 "_"); cbn [andb];
      [|apply satisfies_ret; tc_solve].
    destruct (bool_decide (hd "" _ ∈ _)) eqn:E2; [|apply satisfies_ret; tc_solve].
    apply bool_decide_eq_true_1 in E2.
    unfold ensure_attr, write_attr2. frame.
Qed.

Lemma entry_step_declared st e :
  e ∈ editEntries st ->
  satisfies (declared_only (updateTargets (editEntries st))) true (entry_step st e).
Proof.
  intros He.
  assert (Ha : attribute e ∈ updateTargets (editEntries st)).
  { unfold updateTargets. apply elem_of_list_to_set, list_elem_of_fmap. eauto. }
  intros w sig w' E. destruct (entry_step_others st e _ _ _ E) as [Ho Hs].
  split; [|assumption]. intros b Hb. apply Ho. intros ->. contradiction.
Qed.

(** A submission never assigns to an attribute of the entity that no
    descriptor declares: however it ends, every such attribute holds the
    value it held before.  This is for an entity that is a tree of values,
    as entities are here: where no object is held at two places (in
    particular none is shared between a declared and an undeclared
    attribute, and the entity does not contain itself); an object that is
    shared with a declared attribute is changed in place by the writes
    under that attribute. *)
Theorem submit_changes_declared_only st els w sig w' b :
  handleSubmit st els w = (sig, w') ->
  b ∉ updateTargets (editEntries st) ->
  lookup_prop b (entity w') = lookup_prop b (entity w).
Proof.
  intros Hsubmit Hb.
  assert (H : satisfies (declared_only (updateTargets (editEntries st))) true
                (handleSubmit st els)).
  { unfold handleSubmit, merge_phase.
    apply satisfies_bind; [tc_solve| |intros _].
    { intros x y z [= <- <-]. split; [intros c _; reflexivity|discriminate]. }
    apply satisfies_bind; [tc_solve| |intros _].
    { apply satisfies_allow. apply satisfies_bind; [tc_solve| |intros _];
        apply satisfies_for_each; try tc_solve; intros x;
        [apply raw_step_declared|apply upload_step_declared]. }
    apply satisfies_bind; [tc_solve| |intros _].
    { apply satisfies_for_each_in; [tc_solve|]. apply entry_step_declared. }
    unfold finish_phase. destruct (onSubmitSuccess st).
    - intros x y z [= <- <-]. split; [intros c _; reflexivity|discriminate].
    - apply satisfies_ret; tc_solve. }
  now apply (H _ _ _ Hsubmit).
Qed.

Lemma submit_changes_declared_only_witness :
  lookup_prop "id" (entity (snd (handleSubmit signup_form [plain_control "id" "7"]
                                   (with_entity [("id", VStr "4444")] empty_world))))
  = VStr "4444".
Proof.
  apply (submit_changes_declared_only signup_form [plain_control "id" "7"]
           (with_entity [("id", VStr "4444")] empty_world)
           (fst (handleSubmit signup_form [plain_control "id" "7"]
                   (with_entity [("id", VStr "4444")] empty_world))));
    [now destruct (handleSubmit _ _ _)|].
  apply (bool_decide_unpack _). vm_compute. exact I.
Defined.

(** Bringing the submitted values into the entity never rejects: the two
    merge loops show no toast, never return early and leave the timer queue
    and the loading indicator alone.  They end normally or by throwing. *)
Theorem merge_never_rejects st els w sig w' :
  merge_phase st els w = (sig, w') ->
  sig <> Stop /\ toasts w' = toasts w /\ timers w' = timers w /\ loading w' = loading w.
Proof.
  intros H. destruct (merge_phase_ui st els _ _ _ H) as [(Ht & Hq & Hl) Hs].
  repeat split; try assumption. now apply Hs.
Qed.

Lemma merge_never_rejects_witness :
  fst (merge_phase signup_form [plain_control "nothing" "x"] empty_world) <> Stop.
Proof.
  apply (merge_never_rejects signup_form [plain_control "nothing" "x"] empty_world
           _ (snd (merge_phase signup_form [plain_control "nothing" "x"] empty_world))).
  now destruct (merge_phase _ _ _).
Defined.

Lemma handleSubmit_loading_timers st els w sig w' :
  handleSubmit st els w = (sig, w') ->
  loading w' = true
  /\ timers w' = match sig, onSubmitSuccess st with
                 | Next _, Some h => (timers w ++ [mkTimer 1000 h])%list
                 | _, _ => timers w
                 end.
Proof.
  unfold handleSubmit, bind, showLoading.
  destruct (merge_phase st els (with_loading true w)) as [[[]| |e] wa] eqn:Em;
    destruct (merge_phase_ui _ _ _ _ _ Em) as [(_ & Qa & La) Sa]; simpl in Qa, La.
  - destruct (for_each (entry_step st) (editEntries st) wa) as [[[]| |e] wb] eqn:Ee;
      destruct (reports_for_each _ _ (entry_step_reports st) _ _ _ Ee) as (Qb & Lb & _).
    + unfold finish_phase. destruct (onSubmitSuccess st) as [h|] eqn:Eh.
      * intros [= <- <-]. cbn. split; congruence.
      * intros [= <- <-]. split; congruence.
    + intros [= <- <-]. split; congruence.
    + intros [= <- <-]. split; congruence.
  - now elim (Sa eq_refl).
  - intros [= <- <-]. split; congruence.
Qed.

(** However [handleSubmit] ends, the loading indicator is on when it
    returns: nothing in [handleSubmit] itself turns the indicator off
    again, after a rejection neither.  And the timer queue is exactly this:
    when the submission went through and the form has an [onSubmitSuccess]
    handler, the queue there was with one callback for that handler, with
    delay 1000, at its end; in every other case the queue there was. *)
Theorem submit_leaves_loading_on st els w sig w' :
  handleSubmit st els w = (sig, w') ->
  loading w' = true
  /\ timers w' = match sig, onSubmitSuccess st with
                 | Next _, Some h => (timers w ++ [mkTimer 1000 h])%list
                 | _, _ => timers w
                 end.
Proof. exact (handleSubmit_loading_timers st els w sig w'). Qed.

Lemma submit_leaves_loading_on_witness :
  let els := [plain_control "name" "ann@b.c"; plain_control "email" "a@b.c"] in
  let after := handleSubmit signup_form els empty_world in
  loading after.2 = true
  /\ timers after.2 = [mkTimer 1000 (fun _ => Returned)].
Proof.
  intros els after.
  destruct (submit_leaves_loading_on signup_form els empty_world (Next tt) after.2
              eq_refl) as [Hl Ht].
  split; [exact Hl|exact Ht].
Defined.

(** A submission that went through, followed by the timer phase, with a
    handler that returns (no other callback being queued before): the
    submission itself showed no toast and left the loading indicator on;
    the callback it queued turns the indicator off and shows the success
    toast as the last toast, and no exception is left uncaught.  What the
    callback does comes after the handler has returned, so this does not
    depend on what the handler itself does. *)
Theorem successful_submit_completes st els w w' h :
  onSubmitSuccess st = Some h ->
  h (VObj false (entity w')) = Returned ->
  timers w = [] ->
  handleSubmit st els w = (Next tt, w') ->
  let after := run_timers w' in
  loading w' = true
  /\ toasts w' = toasts w
  /\ after.1 = []
  /\ loading after.2 = false
  /\ last (toasts after.2) = Some (ToastSuccess "Successfully submitted!").
Proof.
  intros Hh Hret Hq Hsubmit.
  pose proof (handleSubmit_toasts _ _ _ _ _ Hsubmit) as Ht. cbn in Ht.
  destruct (handleSubmit_loading_timers _ _ _ _ _ Hsubmit) as [Hl Hq'].
  rewrite Hh, Hq in Hq'.
  cbn zeta. unfold run_timers. rewrite Hq'. cbn.
  unfold success_callback. cbn. rewrite Hret. cbn.
  repeat split; try assumption. apply last_snoc.
Qed.

Lemma successful_submit_completes_witness :
  let els := [plain_control "name" "ann@b.c"; plain_control "email" "a@b.c"] in
  let after := run_timers (handleSubmit signup_form els empty_world).2 in
  after.1 = []
  /\ loading after.2 = false
  /\ last (toasts after.2) = Some (ToastSuccess "Successfully submitted!").
Proof.
  intros els after.
  destruct (successful_submit_completes signup_form els empty_world
              (handleSubmit signup_form els empty_world).2 (fun _ => Returned)
              eq_refl eq_refl eq_refl eq_refl) as (_ & _ & H1 & H2 & H3).
  repeat split; assumption.
Defined.

End SubmitFacts.

(** ** What the loop over the controls does with a name *)

Section ControlFacts.
Import JsString.

Lemma decode_after_encode (known : gset string) (p : Path) :
  (forall a, a ∈ known -> has_char "_" a = false) ->
  path_attr p ∈ known ->
  underscore_free p ->
  decode_name known (encode_name p) = Some p.
Proof.
  intros Hknown Hin [Ha Hsub].
  assert (Hfresh : forall rest, path_attr p ++ String "_" rest ∉ known).
  { intros rest Hc. apply Hknown in Hc. rewrite has_char_app in Hc.
    cbn [has_char] in Hc. rewrite Ascii.eqb_refl, orb_true_r in Hc.
    discriminate. }
  destruct p as [a|a sub|a i|a i k]; cbn [path_attr encode_name] in *.
  - now apply decode_name_known.
  - change (a ++ "_" ++ sub) with (a ++ String "_" sub).
    rewrite decode_name_split, bool_decide_eq_true_2 by auto.
    now rewrite decode_sub_field_plain.
  - change (a ++ "_listfieldsingleidx_" ++ string_of_number i)
      with (a ++ String "_" ("listfieldsingleidx_" ++ string_of_number i)).
    rewrite decode_name_split, bool_decide_eq_true_2 by auto.
    now rewrite decode_sub_field_single.
  - change (a ++ "_listfieldidx_" ++ string_of_number i ++ "_" ++ k)
      with (a ++ String "_" ("listfieldidx_" ++ string_of_number i ++ "_" ++ k)).
    rewrite decode_name_split, bool_decide_eq_true_2 by auto.
    now rewrite decode_sub_field_double.
Qed.

(** No two paths share a flat name: over declared attributes without
    underscores, the render function gives two different paths with
    underscore-free tokens two different names. *)
Theorem encode_name_injective (known : gset string) (p q : Path) :
  (forall a, a ∈ known -> has_char "_" a = false) ->
  path_attr p ∈ known -> path_attr q ∈ known ->
  underscore_free p -> underscore_free q ->
  p <> q -> encode_name p <> encode_name q.
Proof.
  intros Hknown Hp Hq Up Uq Hne E. apply Hne.
  pose proof (decode_after_encode known p Hknown Hp Up) as Dp.
  pose proof (decode_after_encode known q Hknown Hq Uq) as Dq.
  rewrite E, Dq in Dp. now injection Dp.
Qed.

Lemma known_faq_home :
  forall a, a ∈ updateTargets [address_entry "faq"; address_entry "home"] ->
            has_char "_" a = false.
Proof.
  intros a Ha. unfold updateTargets in Ha.
  apply elem_of_list_to_set in Ha. cbn in Ha.
  repeat (apply elem_of_cons in Ha as [->|Ha]; [reflexivity|]).
  now apply elem_of_nil in Ha.
Qed.

Lemma encode_name_injective_witness :
  encode_name (PathListSingle "faq" (Some 1)) <> encode_name (PathListDouble "faq" (Some 1) "0").
Proof.
  apply (encode_name_injective
           (updateTargets [address_entry "faq"; address_entry "home"])).
  - exact known_faq_home.
  - apply (bool_decide_unpack _). vm_compute. exact I.
  - apply (bool_decide_unpack _). vm_compute. exact I.
  - split; [reflexivity|exact I].
  - split; [reflexivity|exact I].
  - discriminate.
Defined.

(** Controls the loop passes over without touching anything: a control
    without a name; a control whose name is not declared and whose text
    before the first underscore, if it has one, is not declared either; and
    an unchecked radio button of a declared attribute. *)
Theorem ignored_controls (st : FormState) (target : FormElement) (w : World) :
  let known := updateTargets (editEntries st) in
  target_name target = ""
  \/ ((target_name target ∉ known)
      /\ forall a rest, target_name target = a ++ "_" ++ rest ->
                        has_char "_" a = false -> a ∉ known)
  \/ ((target_name target ∈ known)
      /\ target_is_radio target = true /\ target_checked target = false) ->
  raw_step st target w = (Next tt, w).
Proof.
  intros known H. unfold raw_step. fold known.
  destruct (String.eqb_spec (target_name target) "") as [|Hne]; [reflexivity|].
  destruct H as [H|[[Hout Hpre]|(Hin & Hr & Hc)]]; [contradiction| |].
  - pose proof (decode_name_cases known (target_name target)) as Hd.
    destruct (decode_name known (target_name target)) as [p|]; [|reflexivity].
    rewrite bool_decide_eq_false_2 in Hd by assumption.
    destruct Hd as (Hp & Hus & rest & Hname & _).
    now elim (Hpre _ _ Hname Hus).
  - rewrite (decode_name_known _ _ Hin), Hr, Hc. reflexivity.
Qed.

Lemma ignored_controls_witness :
  raw_step signup_form (mkFormElement "name" "x" true false) empty_world
  = (Next tt, empty_world).
Proof.
  apply ignored_controls. right. right.
  split; [apply (bool_decide_unpack _); vm_compute; exact I|]. split; reflexivity.
Defined.

Lemma encode_name_not_empty a i k :
  String.eqb (encode_name (PathListSingle a i)) "" = false
  /\ String.eqb (encode_name (PathListDouble a i k)) "" = false.
Proof. cbn [encode_name]. destruct a; split; reflexivity. Qed.

Lemma string_of_number_nat i : string_of_number (Some (Z.of_nat i)) = string_of_nat i.
Proof.
  unfold string_of_number. destruct (Z.ltb_spec (Z.of_nat i) 0); [lia|].
  now rewrite Nat2Z.id.
Qed.

(** A list row at or beyond the current size of its field is discarded: the
    control of a TextList row whose index is not below the size (an absent
    size counts as 0), and the control of a DoubleTextList row whose index
    is not below a present size, leave everything as it is. *)
Theorem stale_rows_discarded (st : FormState) (a : string) (i : nat)
    (value : string) (w : World) :
  let known := updateTargets (editEntries st) in
  (forall b, b ∈ known -> has_char "_" b = false) ->
  a ∈ known ->
  (default 0 (max_idx_of st a) <= i)%nat ->
  raw_step st (plain_control (encode_name (PathListSingle a (Some (Z.of_nat i)))) value) w
  = (Next tt, w)
  /\ (forall k, max_idx_of st a <> None ->
        raw_step st (plain_control
                       (encode_name (PathListDouble a (Some (Z.of_nat i)) k)) value) w
        = (Next tt, w)).
Proof.
  intros known Hknown Ha Hi.
  assert (Hu : has_char "_" a = false) by auto.
  split; [|intros k Hsome]; unfold raw_step;
    cbn [target_name target_value target_is_radio target_checked plain_control];
    fold known.
  - rewrite (proj1 (encode_name_not_empty a _ "")).
    rewrite (decode_after_encode known (PathListSingle a (Some (Z.of_nat i)))
               Hknown Ha (conj Hu I)).
    unfold js_ge. destruct (Z.leb_spec (Z.of_nat (default 0%nat (max_idx_of st a)))
                              (Z.of_nat i)); [reflexivity|lia].
  - rewrite (proj2 (encode_name_not_empty a _ k)).
    rewrite (decode_after_encode known (PathListDouble a (Some (Z.of_nat i)) k)
               Hknown Ha (conj Hu I)).
    destruct (max_idx_of st a) as [n|]; [|contradiction]. cbn in Hi.
    unfold js_ge. destruct (Z.leb_spec (Z.of_nat n) (Z.of_nat i)); [reflexivity|lia].
Qed.

Lemma stale_rows_discarded_witness :
  raw_step faq_form (plain_control "faq_listfieldidx_1_0" "late") empty_world
  = (Next tt, empty_world).
Proof.
  assert (Hk : forall b, b ∈ updateTargets (editEntries faq_form) ->
                         has_char "_" b = false).
  { intros b Hb. unfold updateTargets in Hb. apply elem_of_list_to_set in Hb.
    cbn in Hb. apply elem_of_cons in Hb as [->|Hb]; [reflexivity|].
    now apply elem_of_nil in Hb. }
  assert (Hin : "faq" ∈ updateTargets (editEntries faq_form))
    by (apply (bool_decide_unpack _); vm_compute; exact I).
  assert (Hle : (default 0 (max_idx_of faq_form "faq") <= 1)%nat)
    by (vm_compute; constructor).
  destruct (stale_rows_discarded faq_form "faq" 1 "late" empty_world Hk Hin Hle)
    as [_ H].
  apply (H "0"). vm_compute. discriminate.
Defined.

End ControlFacts.

(** ** Writing a list row *)

Section RowFacts.
Import JsString.

Lemma has_prop_assign_same k v ps : has_prop k (assign_prop k v ps) = true.
Proof.
  induction ps as [|[k' x] ps IH]; simpl.
  - now rewrite String.eqb_refl.
  - destruct (String.eqb_spec k k') as [->|Hne]; simpl.
    + now rewrite String.eqb_refl.
    + destruct (String.eqb_spec k k'); [contradiction|exact IH].
Qed.

Lemma has_prop_assign_other k k' v ps :
  k <> k' -> has_prop k (assign_prop k' v ps) = has_prop k ps.
Proof.
  intros Hne. induction ps as [|[k2 x] ps IH]; simpl.
  - destruct (String.eqb_spec k k'); [contradiction|reflexivity].
  - destruct (String.eqb_spec k' k2) as [->|Hk]; simpl.
    + destruct (String.eqb_spec k k2); [contradiction|reflexivity].
    + now rewrite IH.
Qed.

(** [if (!entity[a]) entity[a] = fresh] on a writable value. *)
Lemma ensure_attr_writable a fresh w :
  writable (lookup_prop a (entity w)) ->
  exists w1,
    ensure_attr a (VObj fresh []) w = (Next tt, w1)
    /\ lookup_prop a (entity w1)
       = VObj (container fresh (lookup_prop a (entity w))).1
              (container fresh (lookup_prop a (entity w))).2
    /\ (forall x, with_entity (assign_prop a x (entity w1)) w1
                  = with_entity (assign_prop a x (entity w)) w).
Proof.
  intros Hw. unfold ensure_attr, bind, read_attr.
  destruct (lookup_prop a (entity w)) as [| |b|n|s|arr ps] eqn:E; cbn in Hw |- *;
    try rewrite Hw; cbn;
    try (eexists; split; [reflexivity|]; cbn; rewrite lookup_assign_same;
         split; [reflexivity|]; intros x; unfold with_entity; cbn;
         now rewrite assign_prop_twice).
  exists w. now repeat split.
Qed.

Lemma read_attr2_obj a k arr ps w :
  lookup_prop a (entity w) = VObj arr ps ->
  read_attr2 a k w = (Next (lookup_prop k ps), w).
Proof. intros E. unfold read_attr2, bind, read_attr. now rewrite E. Qed.

Lemma write_attr2_obj a k v arr ps w :
  lookup_prop a (entity w) = VObj arr ps ->
  write_attr2 a k v w
  = (Next tt, with_entity (assign_prop a (VObj arr (assign_prop k v ps)) (entity w)) w).
Proof. intros E. unfold write_attr2, bind, read_attr. now rewrite E. Qed.

Lemma write_attr3_obj a k k2 v arr ps arr2 ps2 w :
  lookup_prop a (entity w) = VObj arr ps ->
  lookup_prop k ps = VObj arr2 ps2 ->
  write_attr3 a k k2 v w
  = (Next tt,
     with_entity
       (assign_prop a (VObj arr (assign_prop k (VObj arr2 (assign_prop k2 v ps2)) ps))
          (entity w)) w).
Proof.
  intros E1 E2. unfold write_attr3, bind, read_attr. rewrite E1. cbn. now rewrite E2.
Qed.

(** The loop over the controls on the control of a DoubleTextList row below
    the size of its field: the value lands at [entity[a][i][k]], in the row
    and the list that are there or in fresh ones. *)
Lemma raw_double_write (st : FormState) (a : string) (i n : nat) (k value : string)
    (w : World) :
  let known := updateTargets (editEntries st) in
  let key := string_of_nat i in
  let rows := container true (lookup_prop a (entity w)) in
  let row := container false (lookup_prop key rows.2) in
  has_char "_" a = false ->
  a ∈ known ->
  encode_name (PathListDouble a (Some (Z.of_nat i)) k) ∉ known ->
  max_idx_of st a = Some n -> (i < n)%nat ->
  writable (lookup_prop a (entity w)) ->
  writable (lookup_prop key rows.2) ->
  raw_step st (plain_control (encode_name (PathListDouble a (Some (Z.of_nat i)) k)) value) w
  = (Next tt,
     with_entity
       (assign_prop a
          (VObj rows.1
             (assign_prop key (VObj row.1 (assign_prop k (VStr value) row.2)) rows.2))
          (entity w)) w).
Proof.
  intros known key rows row Hu Ha Hfresh Hmax Hi Hwa Hwr.
  unfold raw_step.
  cbn [target_name target_value target_is_radio target_checked plain_control].
  fold known.
  rewrite (proj2 (encode_name_not_empty a _ k)).
  rewrite (decode_encode_fresh known (PathListDouble a (Some (Z.of_nat i)) k)
             Ha (conj Hu I) (or_intror Hfresh)).
  rewrite Hmax. unfold js_ge.
  destruct (Z.leb_spec (Z.of_nat n) (Z.of_nat i)); [lia|].
  rewrite string_of_number_nat. fold key.
  destruct (ensure_attr_writable a true w Hwa) as (w1 & E1 & L1 & W1).
  fold rows in L1.
  unfold bind at 1. unfold empty_array. rewrite E1.
  unfold bind at 1. rewrite (read_attr2_obj a key _ _ w1 L1).
  assert (Hrow : exists w2,
            (if truthy (lookup_prop key rows.2) then ret tt
             else write_attr2 a key empty_object) w1 = (Next tt, w2)
            /\ lookup_prop a (entity w2)
               = VObj rows.1
                   (if truthy (lookup_prop key rows.2) then rows.2
                    else assign_prop key empty_object rows.2)
            /\ (forall x, with_entity (assign_prop a x (entity w2)) w2
                          = with_entity (assign_prop a x (entity w)) w)).
  { destruct (truthy (lookup_prop key rows.2)).
    - exists w1. now repeat split.
    - eexists. split; [apply (write_attr2_obj a key _ _ _ w1 L1)|].
      cbn. rewrite lookup_assign_same. split; [reflexivity|].
      intros x. rewrite <- W1. unfold with_entity. cbn. now rewrite assign_prop_twice. }
  destruct Hrow as (w2 & E2 & L2 & W2).
  unfold bind. rewrite E2.
  subst row. destruct (lookup_prop key rows.2) as [| |b|m|s|arr2 ps2] eqn:Er;
    cbn in Hwr, L2; cbn [container fst snd]; try rewrite Hwr in L2;
    first [ rewrite (write_attr3_obj a key k _ _ _ false [] w2 L2)
              by (unfold empty_object; apply lookup_assign_same)
          | rewrite (write_attr3_obj a key k _ _ _ arr2 ps2 w2 L2) by exact Er ];
    rewrite W2, ?assign_prop_twice; reflexivity.
Qed.

Lemma lookup_filter (P : string * Value -> bool) k ps :
  P (k, lookup_prop k ps) = true -> has_prop k ps = true ->
  lookup_prop k (List.filter P ps) = lookup_prop k ps.
Proof.
  induction ps as [|[k' v] ps IH]; [discriminate 2|]. simpl.
  destruct (String.eqb_spec k k') as [->|Hne].
  - intros HP _. rewrite HP. simpl. now rewrite String.eqb_refl.
  - intros HP Hin. simpl in Hin.
    destruct (P (k', v)); simpl.
    + destruct (String.eqb_spec k k'); [contradiction|now apply IH].
    + now apply IH.
Qed.

(** A DoubleTextList row below the size of its field whose two controls
    were both submitted survives the merge and the pruning with its two
    values, blank ones as well: pruning asks for the two positions to be
    present, not for them to be filled.  This is for a declared attribute
    without an underscore, when the names of the two controls are not
    themselves declared attributes, and when what the entity holds at the
    attribute, and at the row's index inside it, is an object or array or
    a falsy value (under any other value the write throws). *)
Theorem complete_row_survives (st : FormState) (e : EditEntry) (i n : nat)
    (question answer : string) (w : World) :
  let known := updateTargets (editEntries st) in
  let a := attribute e in
  let row_name k := encode_name (PathListDouble a (Some (Z.of_nat i)) k) in
  has_char "_" a = false ->
  a ∈ known ->
  row_name "0" ∉ known ->
  row_name "1" ∉ known ->
  max_idx_of st a = Some n -> (i < n)%nat ->
  writable (lookup_prop a (entity w)) ->
  writable (lookup_prop (string_of_nat i)
              (container true (lookup_prop a (entity w))).2) ->
  exists w' rows arr row,
    (raw_step st (plain_control (row_name "0") question) ;;;
     raw_step st (plain_control (row_name "1") answer) ;;;
     prune_list st e) w = (Next tt, w')
    /\ lookup_prop a (entity w') = VObj false rows
    /\ lookup_prop (string_of_nat i) rows = VObj arr row
    /\ lookup_prop "0" row = VStr question
    /\ lookup_prop "1" row = VStr answer.
Proof.
  intros known a row_name Hu Ha Hf0 Hf1 Hmax Hi Hwa Hwr.
  pose proof (raw_double_write st a i n "0" question w Hu Ha Hf0 Hmax Hi Hwa Hwr) as E1.
  cbv zeta in E1.
  set (rows0 := container true (lookup_prop a (entity w))) in *.
  set (row0 := container false (lookup_prop (string_of_nat i) rows0.2)) in *.
  set (ps1 := assign_prop (string_of_nat i)
                (VObj row0.1 (assign_prop "0" (VStr question) row0.2)) rows0.2) in *.
  set (w1 := with_entity (assign_prop a (VObj rows0.1 ps1) (entity w)) w) in *.
  assert (L1 : lookup_prop a (entity w1) = VObj rows0.1 ps1)
    by (apply lookup_assign_same).
  assert (R1 : lookup_prop (string_of_nat i) ps1
               = VObj row0.1 (assign_prop "0" (VStr question) row0.2))
    by (apply lookup_assign_same).
  pose proof (raw_double_write st a i n "1" answer w1 Hu Ha Hf1 Hmax Hi) as E2.
  cbv zeta in E2. rewrite L1 in E2. cbn [container fst snd writable] in E2.
  rewrite R1 in E2. cbn [container fst snd writable] in E2.
  specialize (E2 I I).
  set (row2 := assign_prop "1" (VStr answer) (assign_prop "0" (VStr question) row0.2)) in *.
  set (ps2 := assign_prop (string_of_nat i) (VObj row0.1 row2) ps1) in *.
  set (w2 := with_entity (assign_prop a (VObj rows0.1 ps2) (entity w1)) w1) in *.
  assert (L2 : lookup_prop a (entity w2) = VObj rows0.1 ps2)
    by (apply lookup_assign_same).
  assert (Hkeep : keep_entry n (string_of_nat i, lookup_prop (string_of_nat i) ps2) = true).
  { unfold ps2. rewrite lookup_assign_same, keep_entry_pair. unfold row2.
    rewrite has_prop_assign_other by discriminate.
    rewrite !has_prop_assign_same.
    destruct (Nat.ltb_spec i n); [reflexivity|lia]. }
  exists (with_entity
            (assign_prop a (VObj false (List.filter (keep_entry n) ps2)) (entity w2)) w2),
    (List.filter (keep_entry n) ps2), row0.1, row2.
  split; [|split; [|split; [|split]]].
  - unfold bind. fold a. unfold row_name. rewrite E1, E2.
    unfold prune_list. fold a. rewrite Hmax.
    destruct (Nat.ltb_spec 0 n) as [_|]; [|lia].
    unfold bind, read_attr. rewrite L2. cbn [truthy typeof_object negb orb ret].
    rewrite L2. reflexivity.
  - apply lookup_assign_same.
  - rewrite lookup_filter; [unfold ps2; apply lookup_assign_same|exact Hkeep|].
    unfold ps2. apply has_prop_assign_same.
  - unfold row2. rewrite lookup_assign_other by discriminate.
    apply lookup_assign_same.
  - apply lookup_assign_same.
Qed.

Lemma complete_row_survives_witness :
  exists w' rows arr row,
    (raw_step faq_form (plain_control "faq_listfieldidx_0_0" "") ;;;
     raw_step faq_form (plain_control "faq_listfieldidx_0_1" "") ;;;
     prune_list faq_form faq_entry) empty_world = (Next tt, w')
    /\ lookup_prop "faq" (entity w') = VObj false rows
    /\ lookup_prop "0" rows = VObj arr row
    /\ lookup_prop "0" row = VStr ""
    /\ lookup_prop "1" row = VStr "".
Proof.
  assert (Hin : "faq" ∈ updateTargets (editEntries faq_form))
    by (apply (bool_decide_unpack _); vm_compute; exact I).
  assert (Hf0 : "faq_listfieldidx_0_0" ∉ updateTargets (editEntries faq_form))
    by (apply (bool_decide_unpack _); vm_compute; exact I).
  assert (Hf1 : "faq_listfieldidx_0_1" ∉ updateTargets (editEntries faq_form))
    by (apply (bool_decide_unpack _); vm_compute; exact I).
  exact (complete_row_survives faq_form faq_entry 0 1 "" "" empty_world
           eq_refl Hin Hf0 Hf1 eq_refl (le_n 1) eq_refl eq_refl).
Defined.

End RowFacts.

(** ** Subfields and the lines of an Article's content *)

Section SubfieldFacts.
Import JsString.

(** The control of a subfield (as of an Address or an Article): the value
    lands at [entity[a][sub]], in the object that is there or in a fresh
    one, split into its non-empty lines when it has a newline or is the
    non-empty [content].  This is for a declared attribute and a subfield
    without underscores, when the name of the control is not itself a
    declared attribute, and when the entity holds an object or array or a
    falsy value at the attribute (under any other value the write
    throws). *)
Theorem subfield_written (st : FormState) (a sub value : string) (w : World) :
  let known := updateTargets (editEntries st) in
  let fields := container false (lookup_prop a (entity w)) in
  has_char "_" a = false ->
  a ∈ known ->
  has_char "_" sub = false ->
  encode_name (PathSub a sub) ∉ known ->
  writable (lookup_prop a (entity w)) ->
  raw_step st (plain_control (encode_name (PathSub a sub)) value) w
  = (Next tt,
     with_entity
       (assign_prop a (VObj fields.1 (assign_prop sub (stored_value sub value) fields.2))
          (entity w)) w).
Proof.
  intros known fields Hu Ha Hsub Hfresh Hw.
  unfold raw_step.
  cbn [target_name target_value target_is_radio target_checked plain_control].
  fold known.
  assert (Hne : String.eqb (encode_name (PathSub a sub)) "" = false)
    by (cbn [encode_name]; destruct a; reflexivity).
  rewrite Hne.
  rewrite (decode_encode_fresh known (PathSub a sub) Ha (conj Hu Hsub)
             (or_intror Hfresh)).
  destruct (ensure_attr_writable a false w Hw) as (w1 & E1 & L1 & W1).
  fold fields in L1.
  unfold bind at 1. unfold empty_object. rewrite E1.
  rewrite (includes_char newline_char value : includes value newline = _).
  unfold stored_value. cbn [truthy].
  destruct (has_char newline_char value || (String.eqb sub "content"
              && negb (String.eqb value "")));
    rewrite (write_attr2_obj a sub _ _ _ w1 L1), W1; reflexivity.
Qed.

Lemma subfield_written_witness :
  raw_step (mkFormState [address_entry "home"; address_entry "first_name"]
              [0%nat; 0%nat] false [] None)
           (plain_control "home_city" "Lima") empty_world
  = (Next tt, with_entity [("home", VObj false [("city", VStr "Lima")])] empty_world).
Proof.
  assert (Hin : "home" ∈ updateTargets [address_entry "home"; address_entry "first_name"])
    by (apply (bool_decide_unpack _); vm_compute; exact I).
  assert (Hf : "home_city" ∉ updateTargets [address_entry "home"; address_entry "first_name"])
    by (apply (bool_decide_unpack _); vm_compute; exact I).
  exact (subfield_written
           (mkFormState [address_entry "home"; address_entry "first_name"]
              [0%nat; 0%nat] false [] None)
           "home" "city" "Lima" empty_world eq_refl Hin eq_refl Hf eq_refl).
Defined.

Lemma split_on_join c (l : list string) :
  l <> [] -> Forall (fun x => has_char c x = false) l ->
  split_on c (join_with (String c "") l) = l.
Proof.
  intros Hne Hl. induction Hl as [|x l Hx Hl IH]; [contradiction|].
  destruct l as [|y r].
  - cbn. now apply split_on_no_char.
  - change (join_with (String c "") (x :: y :: r))
      with (x ++ String c (join_with (String c "") (y :: r))).
    rewrite split_on_app by assumption. f_equal. now apply IH.
Qed.

Lemma filter_all {A} (P : A -> Prop) `{forall x, Decision (P x)} (l : list A) :
  Forall P l -> filter P l = l.
Proof.
  induction 1 as [|x l Hx _ IH]; [reflexivity|].
  rewrite filter_cons_True by assumption. now rewrite IH.
Qed.

Lemma fmap_snd_imap {A} (l : list A) :
  (imap (fun i v => (string_of_nat i, v)) l).*2 = l.
Proof.
  rewrite fmap_imap. rewrite (imap_ext _ (const id)) by reflexivity.
  rewrite imap_const. apply list_fmap_id.
Qed.

(** The lines of an Article's content come back as they were: the text the
    form shows for stored lines (joined by newlines), submitted unchanged,
    is stored as the same lines again, for one or more non-empty lines
    without newlines. *)
Theorem content_lines_roundtrip (a : string) (lines : list string) (ent : Props) :
  lines <> [] ->
  Forall (fun l => l <> "" /\ has_char newline_char l = false) lines ->
  get_prop (lookup_prop a ent) "content" = Some (array_of_list (VStr <$> lines)) ->
  exists shown,
    content_default a ent = Some shown
    /\ stored_value "content" shown = array_of_list (VStr <$> lines).
Proof.
  intros Hne Hl Hc.
  exists (join_with newline lines). split.
  - unfold content_default.
    destruct (lookup_prop a ent) as [| |b|n|s|arr ps];
      try (unfold array_of_list in Hc; vm_compute in Hc; discriminate Hc).
    cbn [truthy]. rewrite Hc. cbn [truthy array_of_list].
    rewrite fmap_snd_imap. rewrite <- list_fmap_compose.
    f_equal. f_equal. transitivity (id <$> lines); [|apply list_fmap_id].
    apply list_fmap_ext. now intros i x _.
  - unfold stored_value.
    assert (Hnonempty : String.eqb (join_with newline lines) "" = false).
    { destruct lines as [|x r]; [contradiction|]. inversion Hl as [|? ? [Hx _] _]; subst.
      destruct x as [|c x]; [contradiction|]. destruct r; reflexivity. }
    rewrite Hnonempty. cbn [String.eqb negb andb]. rewrite orb_true_r.
    unfold split_lines. f_equal. f_equal.
    change newline with (String newline_char "").
    rewrite (split_on_join newline_char lines Hne).
    + apply filter_all. apply Forall_forall. intros x Hx.
      rewrite Forall_forall in Hl. now apply Hl.
    + apply Forall_forall. intros x Hx. rewrite Forall_forall in Hl. now apply Hl.
Qed.

Lemma content_lines_roundtrip_witness :
  exists shown,
    content_default "story" [("story", VObj false [("content",
                               array_of_list [VStr "one"; VStr "two"])])]
    = Some shown
    /\ stored_value "content" shown = array_of_list [VStr "one"; VStr "two"].
Proof.
  apply (content_lines_roundtrip "story" ["one"; "two"]).
  - discriminate.
  - repeat constructor; discriminate.
  - reflexivity.
Defined.

End SubfieldFacts.

(** ** List pruning *)

Section PruneFacts.

Lemma filter_filter {A} (f : A -> bool) (l : list A) :
  List.filter f (List.filter f l) = List.filter f l.
Proof.
  induction l as [|x l IH]; [reflexivity|]. simpl.
  destruct (f x) eqn:E; simpl; [rewrite E|]; now rewrite ?IH.
Qed.

Lemma prune_list_result st e n w :
  max_idx_of st (attribute e) = Some n -> (0 < n)%nat ->
  prune_list st e w
  = (Next tt,
     with_entity
       (assign_prop (attribute e)
          (VObj false (List.filter (keep_entry n)
                         (object_entries (lookup_prop (attribute e) (entity w)))))
          (entity w)) w).
Proof.
  intros Hmax Hn. unfold prune_list. rewrite Hmax.
  destruct (Nat.ltb_spec 0 n); [|lia].
  unfold bind, read_attr, write_attr, ret.
  destruct (lookup_prop (attribute e) (entity w)) as [| |b|m|s|arr ps] eqn:E;
    cbn [truthy typeof_object negb orb andb];
    try destruct b; try destruct (m =? 0); try destruct (String.eqb s "");
    cbn; rewrite ?lookup_assign_same, ?E; cbn; rewrite ?assign_prop_twice;
    reflexivity.
Qed.

(** What pruning leaves of a list field with a positive size: an object
    holding entries of the old value only, each with an index below the size
    and with both paired positions present; a value that was no object
    leaves the empty object.  With size 0 or no size, pruning does
    nothing. *)
Theorem prune_list_keeps_complete_rows (st : FormState) (e : EditEntry) (w : World) :
  match max_idx_of st (attribute e) with
  | Some (S n) =>
      exists kept,
        prune_list st e w
        = (Next tt, with_entity (assign_prop (attribute e) (VObj false kept) (entity w)) w)
        /\ kept `sublist_of` object_entries (lookup_prop (attribute e) (entity w))
        /\ Forall (fun kv =>
                     exists idx arr row,
                       JsString.parseInt kv.1 = Some idx /\ idx < Z.of_nat (S n)
                       /\ kv.2 = VObj arr row
                       /\ has_prop "0" row = true /\ has_prop "1" row = true) kept
  | _ => prune_list st e w = (Next tt, w)
  end.
Proof.
  destruct (max_idx_of st (attribute e)) as [[|n]|] eqn:Hmax;
    [unfold prune_list; now rewrite Hmax| |unfold prune_list; now rewrite Hmax].
  eexists. split; [apply (prune_list_result st e (S n) w Hmax); lia|]. split.
  - generalize (object_entries (lookup_prop (attribute e) (entity w))).
    intros l. induction l as [|x l IH]; [constructor|]. simpl.
    destruct (keep_entry (S n) x); now constructor.
  - apply Forall_forall. intros [k v] Hin.
    apply list_elem_of_In, filter_In in Hin as [_ Hk].
    unfold keep_entry in Hk. cbn [fst snd] in *.
    destruct (JsString.parseInt k) as [idx|]; [|discriminate].
    destruct v as [| |b|m|s|arr row];
      rewrite ?andb_false_r in Hk; try discriminate Hk.
    apply andb_true_iff in Hk as [Hk H01]. apply andb_true_iff in H01 as [H0 H1].
    apply andb_true_iff in Hk as [Hk _]. apply andb_true_iff in Hk as [Hk _].
    exists idx, arr, row. repeat split; try assumption. now apply Z.ltb_lt.
Qed.

(** Pruning twice is pruning once. *)
Theorem prune_list_idempotent (st : FormState) (e : EditEntry) (w : World) :
  (prune_list st e ;;; prune_list st e) w = prune_list st e w.
Proof.
  destruct (max_idx_of st (attribute e)) as [[|n]|] eqn:Hmax;
    [unfold bind, prune_list; now rewrite Hmax| |unfold bind, prune_list; now rewrite Hmax].
  unfold bind. rewrite (prune_list_result st e (S n) w Hmax) by lia.
  rewrite (prune_list_result st e (S n) _ Hmax) by lia.
  cbn [entity with_entity]. rewrite lookup_assign_same, assign_prop_twice.
  cbn [object_entries]. now rewrite filter_filter.
Qed.

End PruneFacts.

(** ** The Article check *)

Section ArticleFacts.

(** An article that passes the Article check is complete or empty: after
    the check, the attribute holds the empty object, or an object whose
    title, content and image are all filled in. *)
Theorem article_accepted_complete_or_empty (e : EditEntry) (w w' : World) :
  check_article e w = (Next tt, w') ->
  lookup_prop (attribute e) (entity w') = empty_object
  \/ exists arr ps,
       lookup_prop (attribute e) (entity w') = VObj arr ps
       /\ truthy (lookup_prop "title" ps) = true
       /\ truthy (lookup_prop "content" ps) = true
       /\ truthy (lookup_prop "image_url" ps) = true.
Proof.
  unfold check_article, bind, read_attr.
  destruct (lookup_prop (attribute e) (entity w)) as [| |b|n|s|arr ps] eqn:E;
    try discriminate; cbn.
  - intros [= <-]. left. apply lookup_assign_same.
  - intros [= <-]. left. apply lookup_assign_same.
  - intros [= <-]. left. apply lookup_assign_same.
  - unfold count_truthy. cbn [List.filter].
    destruct (truthy (lookup_prop "title" ps)) eqn:Ht,
             (truthy (lookup_prop "content" ps)) eqn:Hc,
             (truthy (lookup_prop "image_url" ps)) eqn:Hi,
             (truthy (lookup_prop "subtitle" ps)),
             (truthy (lookup_prop "button_link" ps));
      cbn; try discriminate; intros [= <-];
      first [ left; apply lookup_assign_same
            | right; exists arr, ps; rewrite E; now repeat split ].
Qed.

Lemma article_accepted_complete_or_empty_witness :
  lookup_prop "story"
    (entity (snd (check_article
                    (mkEditEntry "story" "Story" Article false None VUndefined None)
                    (with_entity [("story", VObj false [("button_text", VStr "Go")])]
                       empty_world))))
  = empty_object.
Proof.
  destruct (article_accepted_complete_or_empty
              (mkEditEntry "story" "Story" Article false None VUndefined None)
              (with_entity [("story", VObj false [("button_text", VStr "Go")])] empty_world)
              _ eq_refl) as [H|(arr & ps & H & Ht & _)].
  - exact H.
  - vm_compute in H. injection H as <- <-. discriminate Ht.
Defined.

End ArticleFacts.

(** ** The Showcase check *)

Section ShowcaseFacts.

Lemma count_photos_array arr ps imgs :
  has_prop "image_urls" ps = true ->
  lookup_prop "image_urls" ps = array_of_list imgs ->
  count_photos (VObj arr ps) = length (List.filter is_live_photo imgs).
Proof.
  intros Hin Himgs. unfold count_photos. rewrite Hin, Himgs.
  cbn [isArray array_of_list andb object_entries].
  change (map snd ?l) with (l.*2). now rewrite fmap_snd_imap.
Qed.

(** A showcase without the Instagram flag and without a photo limit is
    accepted exactly when its title and its photos are both there or both
    missing; with one of the two only it is rejected with the one toast. *)
Theorem showcase_title_and_photos (e : EditEntry) (w : World) arr ps :
  extra_field (extraParam e) "isInstagramShowcase" = None ->
  extra_field (extraParam e) "maxPhotos" = None ->
  lookup_prop (attribute e) (entity w) = VObj arr ps ->
  check_showcase e w
  = if xorb (truthy (lookup_prop "title" ps)) (0 <? count_photos (VObj arr ps))%nat
    then (Stop, with_toast (ToastError ("Title and Images are required for "
                                        ++ attributeName e ++ ".")) w)
    else (Next tt, w).
Proof.
  intros Hi Hm Hv. unfold check_showcase, bind, read_attr.
  rewrite Hi, Hm, Hv. cbn [Z.eqb negb andb get_prop lift_js ret].
  unfold count_truthy. cbn [List.filter truthy].
  destruct (truthy (lookup_prop "title" ps)),
           (0 <? count_photos (VObj arr ps))%nat; reflexivity.
Qed.

Lemma showcase_title_and_photos_witness :
  check_showcase (mkEditEntry "gallery" "Gallery" Showcase false None VUndefined None)
    (with_entity [("gallery", VObj false [("title", VStr "Trips")])] empty_world)
  = (Stop, with_toast (ToastError "Title and Images are required for Gallery.")
             (with_entity [("gallery", VObj false [("title", VStr "Trips")])] empty_world)).
Proof.
  exact (showcase_title_and_photos
           (mkEditEntry "gallery" "Gallery" Showcase false None VUndefined None)
           (with_entity [("gallery", VObj false [("title", VStr "Trips")])] empty_world)
           false [("title", VStr "Trips")] eq_refl eq_refl eq_refl).
Defined.

(** What counts as a photo: an object with a [state] that is not
    ["deleted"].  An entry without a [state], such as a file just picked,
    does not count. *)
Lemma is_live_photo_spec v :
  is_live_photo v = true
  <-> exists arr ps, v = VObj arr ps /\ has_prop "state" ps = true
                     /\ lookup_prop "state" ps <> VStr "deleted".
Proof.
  unfold is_live_photo. destruct v as [| |b|n|s|arr ps];
    try (split; [rewrite ?andb_false_r; discriminate|intros (? & ? & [=] & _)]).
  cbn [truthy typeof_object andb]. split.
  - intros H. apply andb_true_iff in H as [Hs Hd]. exists arr, ps.
    repeat split; [assumption|]. intros E. rewrite E in Hd. discriminate.
  - intros (arr' & ps' & [= <- <-] & Hs & Hd). rewrite Hs. cbn [andb].
    destruct (lookup_prop "state" ps) as [| |b|n|s|a p]; try reflexivity.
    destruct (String.eqb_spec s "deleted") as [->|]; [contradiction|reflexivity].
Qed.

(** The photo limit of a showcase: with a limit [m > 0], a showcase with
    more than [m] photos that count is rejected with the limit toast, before
    anything else about it is looked at. *)
Theorem showcase_photo_limit (e : EditEntry) (w : World) arr ps imgs (m : Z) :
  extra_field (extraParam e) "maxPhotos" = Some (VNum m) ->
  0 < m ->
  lookup_prop (attribute e) (entity w) = VObj arr ps ->
  has_prop "image_urls" ps = true ->
  lookup_prop "image_urls" ps = array_of_list imgs ->
  m < Z.of_nat (length (List.filter is_live_photo imgs)) ->
  check_showcase e w
  = (Stop, with_toast
             (ToastError ("Please make sure the " ++ attributeName e
                          ++ " section has no more than "
                          ++ JsString.string_of_number (Some m) ++ " photos.")) w).
Proof.
  intros Hm Hpos Hv Hin Himgs Hmany. unfold check_showcase, bind, read_attr.
  rewrite Hm, Hv, (count_photos_array arr ps imgs Hin Himgs). cbn [to_number].
  destruct (Z.eqb_spec m 0); [lia|].
  destruct (Z.ltb_spec m (Z.of_nat (length (List.filter is_live_photo imgs)))); [|lia].
  reflexivity.
Qed.

Lemma showcase_photo_limit_witness :
  let photo s := VObj false [("state", VStr s)] in
  let e := mkEditEntry "gallery" "Gallery" Showcase false None
             (VObj false [("maxPhotos", VNum 1)]) None in
  let w := with_entity
             [("gallery",
               VObj false [("image_urls",
                            array_of_list [photo "ready"; photo "deleted"; photo "ready"])])]
             empty_world in
  fst (check_showcase e w) = Stop.
Proof.
  intros photo e w.
  rewrite (showcase_photo_limit e w false
             [("image_urls", array_of_list [photo "ready"; photo "deleted"; photo "ready"])]
             [photo "ready"; photo "deleted"; photo "ready"] 1);
    reflexivity.
Defined.

End ShowcaseFacts.

(** ** The sizes of the list fields *)

Section SizeFacts.

Lemma click_length sizes c : length (click sizes c) = length sizes.
Proof.
  destruct c as [i|i]; cbn [click click_index]; unfold add_row, remove_row;
    destruct (sizes !! i); rewrite ?length_insert; reflexivity.
Qed.

Lemma click_other sizes c i : i <> click_index c -> click sizes c !! i = sizes !! i.
Proof.
  intros Hne. destruct c as [j|j]; cbn [click click_index] in *; unfold add_row, remove_row;
    destruct (sizes !! j); try reflexivity; now apply list_lookup_insert_ne.
Qed.

Lemma click_same sizes c n :
  click sizes c !! click_index c = Some n -> (1 <= n)%nat.
Proof.
  destruct c as [j|j]; cbn [click click_index]; unfold add_row, remove_row;
    destruct (sizes !! j) as [m|] eqn:E; try congruence;
    (rewrite list_lookup_insert_eq by (now apply lookup_lt_Some in E));
    intros H;
    [assert (Hn : n = Nat.min 10 (m + 1)) by congruence
    |assert (Hn : n = Nat.max 1 (m - 1)) by congruence];
    rewrite Hn; [apply Nat.min_glb; lia|apply Nat.le_max_l].
Qed.

Lemma click_bound sizes c i n bound :
  (10 <= bound)%nat ->
  (forall m, sizes !! i = Some m -> (m <= bound)%nat) ->
  click sizes c !! i = Some n -> (n <= bound)%nat.
Proof.
  intros Hb Hm. destruct (decide (i = click_index c)) as [->|Hne].
  - destruct c as [j|j]; cbn [click click_index]; unfold add_row, remove_row;
      destruct (sizes !! j) as [m|] eqn:E; try congruence;
      (rewrite list_lookup_insert_eq by (now apply lookup_lt_Some in E));
      intros H; specialize (Hm m E);
      [assert (Hn : n = Nat.min 10 (m + 1)) by congruence
      |assert (Hn : n = Nat.max 1 (m - 1)) by congruence];
      rewrite Hn;
      [etransitivity; [apply Nat.le_min_l|assumption]|apply Nat.max_lub; lia].
  - rewrite click_other by assumption. apply Hm.
Qed.

(** The sizes after any clicks on the Add and Remove buttons of list
    fields, from the initial sizes: one size per descriptor; 0 at every
    descriptor that is not a list field; at least 1 at every position that
    was clicked (also when the list began empty); never above 10 or the
    initial size, whichever is larger; and the initial size at every
    position that was not clicked. *)
Theorem sizes_after_clicks (entries : list EditEntry) (entityObj : Props)
    (clicks : list SizeClick) :
  Forall (on_list_field entries) clicks ->
  let initial := init_listFieldSize entries entityObj in
  let sizes := foldl click initial clicks in
  length sizes = length entries
  /\ sizes_wf entries sizes
  /\ (forall i n, sizes !! i = Some n -> i ∈ click_index <$> clicks -> (1 <= n)%nat)
  /\ (forall i n m, sizes !! i = Some n -> initial !! i = Some m ->
        (n <= Nat.max 10 m)%nat)
  /\ (forall i, i ∉ click_index <$> clicks -> sizes !! i = initial !! i).
Proof.
  induction clicks as [|c clicks IH] using rev_ind; intros Hall; cbn zeta.
  - cbn. repeat split.
    + unfold init_listFieldSize. apply length_fmap.
    + apply init_listFieldSize_wf.
    + intros i n _ Hin. now apply elem_of_nil in Hin.
    + intros i n m Hn Hm. rewrite Hn in Hm. injection Hm as ->. lia.
  - apply Forall_app in Hall as [Hall Hc]. apply Forall_inv in Hc.
    destruct (IH Hall) as (Hlen & Hwf & Hone & Hmax & Hinit).
    rewrite foldl_snoc, fmap_app. cbn [fmap list_fmap].
    set (sizes := foldl click (init_listFieldSize entries entityObj) clicks) in *.
    destruct Hc as (e & He & Ht).
    repeat split.
    + now rewrite click_length.
    + destruct c as [j|j]; cbn in He |- *;
        [now apply (add_row_wf entries sizes j e)
        |now apply (remove_row_wf entries sizes j e)].
    + intros i n Hn Hin. destruct (decide (i = click_index c)) as [->|Hne].
      * now apply (click_same sizes c).
      * rewrite click_other in Hn by assumption. apply (Hone i n Hn).
        apply elem_of_app in Hin as [Hin|Hin]; [assumption|].
        apply list_elem_of_singleton in Hin. contradiction.
    + intros i n m Hn Hm. apply (click_bound sizes c i n); [lia| |assumption].
      intros m' Hm'. now apply (Hmax i m' m).
    + intros i Hi. assert (Hi1 : i ∉ click_index <$> clicks)
        by (intros Hin; apply Hi, elem_of_app; now left).
      assert (Hi2 : i ∉ [click_index c])
        by (intros Hin; apply Hi, elem_of_app; now right).
      rewrite click_other by (intros ->; apply Hi2; now apply list_elem_of_singleton).
      now apply Hinit.
Qed.

Lemma sizes_after_clicks_witness :
  foldl click (init_listFieldSize [faq_entry] []) [RemoveRow 0] = [1%nat]
  /\ sizes_wf [faq_entry] (foldl click (init_listFieldSize [faq_entry] []) [RemoveRow 0]).
Proof.
  assert (H : Forall (on_list_field [faq_entry]) [RemoveRow 0]).
  { repeat constructor. exists faq_entry. split; reflexivity. }
  destruct (sizes_after_clicks [faq_entry] [] [RemoveRow 0] H) as (_ & Hwf & _).
  split; [reflexivity|exact Hwf].
Defined.

End SizeFacts.

(** ** The PillList field *)

Section PillFacts.

Lemma spread_array_of_list l : spread (array_of_list l) = Some l.
Proof. unfold spread, array_of_list. now rewrite fmap_snd_imap. Qed.

(** Adding a pill and removing the last pill again gives back the pills
    there were (any non-blank input; it is stored trimmed in between). *)
Theorem add_then_remove_last (attr : string) (items : list Value) (ps : PillState)
    (w : World) :
  lookup_prop attr (entity w) = array_of_list items ->
  JsString.trim (newPill ps) <> "" ->
  exists w1 w2 ps1 ps2,
    addPill attr ps w = (Next ps1, w1)
    /\ lookup_prop attr (entity w1)
       = array_of_list (items ++ [VStr (JsString.trim (newPill ps))])%list
    /\ newPill ps1 = ""
    /\ removePill attr (length items) ps1 w1 = (Next ps2, w2)
    /\ lookup_prop attr (entity w2) = array_of_list items.
Proof.
  intros Hv Hne.
  assert (Ht : truthy (VStr (JsString.trim (newPill ps))) = true).
  { cbn. destruct (String.eqb_spec (JsString.trim (newPill ps)) "");
      [contradiction|reflexivity]. }
  unfold addPill, removePill, bind, read_attr. rewrite Ht, Hv, spread_array_of_list.
  cbn [lift_js ret write_attr].
  do 4 eexists. split; [reflexivity|]. cbn [entity with_entity].
  rewrite !lookup_assign_same, spread_array_of_list. cbn [lift_js ret write_attr].
  split; [reflexivity|]. split; [reflexivity|]. split; [reflexivity|].
  cbn [entity with_entity]. rewrite lookup_assign_same. f_equal.
  rewrite take_app_length, drop_ge; [apply app_nil_r|].
  rewrite length_app. cbn. lia.
Qed.

Lemma add_then_remove_last_witness :
  exists w1 w2 ps1 ps2,
    addPill "pills" (mkPillState " C " 0)
      (with_entity [("pills", array_of_list [VStr "A"; VStr "B"])] empty_world)
    = (Next ps1, w1)
    /\ lookup_prop "pills" (entity w1) = array_of_list [VStr "A"; VStr "B"; VStr "C"]
    /\ newPill ps1 = ""
    /\ removePill "pills" 2 ps1 w1 = (Next ps2, w2)
    /\ lookup_prop "pills" (entity w2) = array_of_list [VStr "A"; VStr "B"].
Proof.
  apply (add_then_remove_last "pills" [VStr "A"; VStr "B"] (mkPillState " C " 0)
           (with_entity [("pills", array_of_list [VStr "A"; VStr "B"])] empty_world)).
  - reflexivity.
  - discriminate.
Defined.

(** Removing a pill removes exactly the one at the index and keeps the
    others in order; an index past the end removes nothing.  A blank input
    adds nothing. *)
Theorem remove_pill_at_index (attr : string) (items : list Value) (index : nat)
    (ps : PillState) (w : World) :
  lookup_prop attr (entity w) = array_of_list items ->
  (exists w', removePill attr index ps w = (Next (mkPillState (newPill ps) (formKey ps + 1)), w')
              /\ lookup_prop attr (entity w')
                 = array_of_list (if decide (index < length items)%nat
                                  then delete index items else items))
  /\ (JsString.trim (newPill ps) = "" -> addPill attr ps w = (Next ps, w)).
Proof.
  intros Hv. split.
  - unfold removePill, bind, read_attr. rewrite Hv, spread_array_of_list.
    cbn [lift_js ret write_attr]. eexists. split; [reflexivity|].
    cbn [entity with_entity]. rewrite lookup_assign_same. f_equal.
    destruct (decide (index < length items)%nat) as [Hlt|Hge].
    + clear Hv. revert index Hlt. induction items as [|x items IH]; intros index Hlt;
        [cbn in Hlt; lia|].
      destruct index as [|index]; [reflexivity|].
      cbn. f_equal. apply IH. cbn in Hlt. lia.
    + rewrite take_ge, drop_ge by lia. apply app_nil_r.
  - intros Hblank. unfold addPill. now rewrite Hblank.
Qed.

Lemma remove_pill_at_index_witness :
  exists w',
    removePill "pills" 0 (mkPillState "" 0)
      (with_entity [("pills", array_of_list [VStr "A"; VStr "B"])] empty_world)
    = (Next (mkPillState "" 1), w')
    /\ lookup_prop "pills" (entity w') = array_of_list [VStr "B"].
Proof.
  destruct (remove_pill_at_index "pills" [VStr "A"; VStr "B"] 0 (mkPillState "" 0)
              (with_entity [("pills", array_of_list [VStr "A"; VStr "B"])] empty_world)
              eq_refl) as [H _].
  exact H.
Defined.

(** A rendered PillList field always passes the required-field check, with
    no pill at all as well: rendering leaves an array at the attribute, and
    an array, even empty, is a value. *)
Theorem empty_pill_list_passes_required (st : FormState) (e : EditEntry) (w : World) :
  NoDup (attribute <$> editEntries st) ->
  sizes_wf (editEntries st) (listFieldSize st) ->
  e ∈ editEntries st ->
  type e = PillList ->
  validations e = None ->
  exists w1,
    pill_init (attribute e) w = (Next tt, w1)
    /\ truthy (lookup_prop (attribute e) (entity w1)) = true
    /\ entry_step st e w1 = (Next tt, w1).
Proof.
  intros Hnd Hwf Hin Ht Hv.
  assert (Hinit : exists w1, pill_init (attribute e) w = (Next tt, w1)
                             /\ truthy (lookup_prop (attribute e) (entity w1)) = true).
  { unfold pill_init, ensure_attr, bind, read_attr.
    destruct (truthy (lookup_prop (attribute e) (entity w))) eqn:E.
    - exists w. now split.
    - eexists. split; [reflexivity|]. cbn. now rewrite lookup_assign_same. }
  destruct Hinit as (w1 & E1 & T1). exists w1. repeat split; try assumption.
  unfold entry_step, before_validations, check_required, set_checkbox, prune_list,
    check_validations, bind, read_attr.
  rewrite Ht, Hv. cbn [EditEntryType_eqb].
  destruct (max_idx_of_non_list st e Hnd Hwf Hin) as [-> | ->];
    [now rewrite Ht| |];
    destruct (isRequired e); cbn beta; rewrite ?T1; reflexivity.
Qed.

Lemma empty_pill_list_passes_required_witness :
  let e := mkEditEntry "pills" "Pills" PillList true None VUndefined None in
  exists w1,
    pill_init "pills" empty_world = (Next tt, w1)
    /\ truthy (lookup_prop "pills" (entity w1)) = true
    /\ entry_step (mkFormState [e] [0%nat] false [] None) e w1 = (Next tt, w1).
Proof.
  intros e.
  apply (empty_pill_list_passes_required (mkFormState [e] [0%nat] false [] None) e
           empty_world).
  - cbn. apply NoDup_singleton.
  - intros i e' n He Hn _. destruct i as [|i]; [now injection Hn as <-|discriminate].
  - now apply list_elem_of_singleton.
  - reflexivity.
  - reflexivity.
Defined.

End PillFacts.

(** ** The upload service *)

Section UploadFacts.

Lemma or_string_self s : or_string (Some s) "" = s.
Proof. unfold or_string. now destruct (String.eqb_spec s "") as [->|]. Qed.

Lemma storedFile_ready {St} b (u : Upload St) :
  storedFile b u = ready_file b (entityId u) (fieldName u) (file u).
Proof.
  unfold storedFile, ready_file, StoredFile.new.
  cbn [StoredFileData.id StoredFileData.file_name StoredFileData.file_path
       StoredFileData.file_size StoredFileData.content_type
       StoredFileData.entity_id StoredFileData.field_name
       StoredFileData.created_at StoredFileData.state].
  rewrite !or_string_self. f_equal.
  - now destruct (Z.eqb_spec (File.size (file u)) 0) as [->|].
  - unfold or_string. now destruct (String.eqb_spec (Date_toISOString b) "") as [->|].
Qed.

Lemma firings_app evs evs' : firings (evs ++ evs') = (firings evs ++ firings evs')%list.
Proof. apply omap_app. Qed.

Lemma expected_calls_snoc {St} (u : Upload St) bs b :
  expected_calls u (bs ++ [b])
  = (expected_calls u bs
     ++ (if (length bs <? 10)%nat
         then [call_if_given (onProgress u) (10 * Z.of_nat (length bs) + 10)]
         else [])
     ++ (if (length bs =? 9)%nat
         then [call_if_given (onComplete u)
                 (ready_file b (entityId u) (fieldName u) (file u))]
         else []))%list.
Proof.
  unfold expected_calls. rewrite length_app. cbn [length].
  destruct (Nat.ltb_spec (length bs) 10) as [Hlt|Hge].
  - rewrite (lookup_ge_None_2 bs 9) by lia.
    rewrite (Nat.min_r 10 (length bs + 1)), (Nat.min_r 10 (length bs)) by lia.
    rewrite seq_app, fmap_app, !app_nil_r. cbn [seq fmap list_fmap].
    replace (10 * Z.of_nat (1 + length bs)) with (10 * Z.of_nat (length bs) + 10) by lia.
    rewrite <- app_assoc. f_equal. f_equal.
    destruct (Nat.eqb_spec (length bs) 9) as [E|E].
    + rewrite lookup_app_r by lia. rewrite E. reflexivity.
    + rewrite lookup_ge_None_2; [reflexivity|]. rewrite length_app. cbn [length]. lia.
  - rewrite (Nat.min_l 10 (length bs + 1)), (Nat.min_l 10 (length bs)) by lia.
    rewrite lookup_app_l by lia.
    destruct (Nat.eqb_spec (length bs) 9); [lia|]. now rewrite !app_nil_r.
Qed.

Lemma upload_events_state {St} (u : Upload St) evs s w :
  let n := length (firings evs) in
  exists w',
    foldl upload_event (with_interval (Running 0) u, s, w) evs
    = (with_interval (if (n <? 10)%nat then Running (10 * Z.of_nat n) else Cleared) u,
       foldl (fun s f => f s) s (expected_calls u (firings evs)), w')
    /\ entity w' = entity w /\ toasts w' = toasts w.
Proof.
  induction evs as [|ev evs IH] using rev_ind; cbn zeta.
  - exists w. now repeat split.
  - destruct IH as (w' & IH & He & Ht). rewrite foldl_snoc, IH, firings_app.
    destruct ev as [|b|].
    + change (firings [ReaderLoaded]) with (@nil Browser). rewrite app_nil_r.
      exists w'. split; [|now split]. cbn [upload_event]. unfold reader_onload.
      now destruct (length (firings evs) <? 10)%nat.
    + change (firings [IntervalFired b]) with [b].
      rewrite expected_calls_snoc, length_app, !foldl_app. cbn [length upload_event].
      set (n := length (firings evs)).
      set (s' := foldl (fun s f => f s) s (expected_calls u (firings evs))).
      exists w'. split; [|now split].
      unfold interval_callback.
      destruct (Nat.ltb_spec n 10) as [Hn|Hn];
        cbn [progressInterval with_interval onProgress onComplete foldl].
      * destruct (Z.leb_spec 100 (10 * Z.of_nat n + 10)) as [Hc|Hc].
        -- destruct (Nat.ltb_spec (n + 1) 10); [lia|].
           destruct (Nat.eqb_spec n 9); [|lia].
           rewrite storedFile_ready. reflexivity.
        -- destruct (Nat.ltb_spec (n + 1) 10); [|lia].
           destruct (Nat.eqb_spec n 9); [lia|].
           replace (10 * Z.of_nat (n + 1)) with (10 * Z.of_nat n + 10) by lia.
           reflexivity.
      * destruct (Nat.ltb_spec (n + 1) 10); [lia|].
        destruct (Nat.eqb_spec n 9); [lia|]. reflexivity.
    + change (firings [CancelCalled]) with (@nil Browser). rewrite app_nil_r.
      exists (cancel w').2. split; [|now split]. reflexivity.
Qed.

Lemma upload_never_loaded {St} (u : Upload St) evs s w :
  progressInterval u = NotSet ->
  Forall (fun ev => is_load ev = false) evs ->
  (foldl upload_event (u, s, w) evs).1 = (u, s).
Proof.
  intros Hu Hall. revert w. induction Hall as [|ev evs Hev _ IH]; intros w;
    [reflexivity|].
  destruct ev as [|b|]; [discriminate| |]; cbn [foldl upload_event].
  - unfold interval_callback. rewrite Hu. apply IH.
  - apply IH.
Qed.

(** What an upload calls back, for any events after the reader has loaded
    (firings of the interval, calls of [cancel], with any functions given
    as callbacks): the progress callback with 10, 20, ... once per firing
    up to 100, and the completion callback once, at the tenth firing,
    with a file in state [Ready] that carries the name, size and type of
    the uploaded file and the object URL made then.  Further firings and
    calls of [cancel], before or after, change nothing of this; and while
    the reader has not loaded nothing is called at all. *)
Theorem upload_calls_back {St} (entityId fieldName : string) (file : File.t)
    (onProgress : option (Z -> St -> St))
    (onComplete : option (StoredFile.t -> St -> St))
    (evs : list UploadEvent) (s : St) (w : World) :
  let u := uploadFile entityId fieldName file onProgress onComplete in
  let after := foldl upload_event (reader_onload u, s, w) evs in
  let n := length (firings evs) in
  after.1.2 = foldl (fun s f => f s) s (expected_calls u (firings evs))
  /\ progressInterval after.1.1
     = (if (n <? 10)%nat then Running (10 * Z.of_nat n) else Cleared)
  /\ entity after.2 = entity w
  /\ toasts after.2 = toasts w
  /\ (foldl upload_event (u, s, w) (List.filter (fun ev => negb (is_load ev)) evs)).1
     = (u, s).
Proof.
  cbn zeta.
  destruct (upload_events_state
              (uploadFile entityId fieldName file onProgress onComplete) evs s w)
    as (w' & E & He & Ht).
  split; [|split; [|split; [|split]]].
  - change (reader_onload _) with
      (with_interval (Running 0)
         (uploadFile entityId fieldName file onProgress onComplete)).
    now rewrite E.
  - change (reader_onload _) with
      (with_interval (Running 0)
         (uploadFile entityId fieldName file onProgress onComplete)).
    rewrite E. cbn [fst snd]. now destruct (_ <? _)%nat.
  - change (reader_onload _) with
      (with_interval (Running 0)
         (uploadFile entityId fieldName file onProgress onComplete)).
    now rewrite E.
  - change (reader_onload _) with
      (with_interval (Running 0)
         (uploadFile entityId fieldName file onProgress onComplete)).
    now rewrite E.
  - apply upload_never_loaded; [reflexivity|].
    apply Forall_forall. intros ev Hin.
    apply list_elem_of_In, filter_In in Hin as [_ Hin].
    now apply negb_true_iff in Hin.
Qed.

Lemma lookup_assign_key k k' v m :
  lookup_key k' (assign_key k v m) = if String.eqb k' k then Some v else lookup_key k' m.
Proof.
  induction m as [|[k0 v0] m IH]; cbn.
  - reflexivity.
  - destruct (String.eqb_spec k k0) as [->|Hk]; cbn.
    + now destruct (String.eqb_spec k' k0).
    + destruct (String.eqb_spec k' k0) as [->|Hk'].
      * destruct (String.eqb_spec k0 k); [congruence|reflexivity].
      * apply IH.
Qed.

Lemma upload_event_started entityObj st picks u st1 w ev :
  started_in entityObj st picks u -> one_result_kept st picks st1 ->
  started_in entityObj st picks (upload_event (u, st1, w) ev).1.1
  /\ one_result_kept st picks (upload_event (u, st1, w) ev).1.2.
Proof.
  intros (name & file & iv & Hin & ->) Hst.
  destruct ev as [|b|]; cbn [upload_event].
  - split; [|assumption]. destruct iv; cbn;
      (eexists name, file, _; split; [assumption|reflexivity]).
  - unfold interval_callback. destruct iv as [|p|]; cbn [progressInterval with_interval];
      try (split; [eexists name, file, _; split; [assumption|reflexivity]|assumption]).
    destruct (100 <=? p + 10); cbn [fst snd].
    + split; [eexists name, file, _; split; [assumption|reflexivity]|].
      rewrite storedFile_ready.
      destruct Hst as (_ & H1 & H2 & H3). split; [|now repeat split].
      right. exists name, file, b. split; [assumption|reflexivity].
    + split; [eexists name, file, _; split; [assumption|reflexivity]|assumption].
  - split; [|assumption]. eexists name, file, _; split; [assumption|reflexivity].
Qed.

Lemma pool_events_started entityObj st picks evs us st1 w :
  Forall (started_in entityObj st picks) us -> one_result_kept st picks st1 ->
  one_result_kept st picks (foldl pool_event (us, st1, w) evs).1.2.
Proof.
  revert us st1 w. induction evs as [|[i ev] evs IH]; intros us st1 w Hus Hst;
    [assumption|].
  cbn [foldl]. unfold pool_event at 2. cbn [fst snd].
  destruct (us !! i) as [u|] eqn:Ei; [|now apply IH].
  pose proof (upload_event_started entityObj st picks u st1 w ev
                (Forall_lookup_1 _ _ _ _ Hus Ei) Hst) as [Hu' Hst'].
  destruct (upload_event (u, st1, w) ev) as [[u' st1'] w'].
  apply IH; [|assumption].
  apply Forall_insert; assumption.
Qed.

(** Of the uploads the form starts in one render, at most one result is
    kept: however the events of the uploads interleave, the photo map ends
    as it was in that render, or as it was with the object URL of one of
    the picked files; of two names that were not in the map, at least one
    is still missing.  The rest of the form state is untouched. *)
Theorem same_render_uploads_keep_one (entityObj : Props) (st : FormState)
    (picks : list (string * File.t)) (evs : list (nat * UploadEvent)) (w : World) :
  let uploads := (fun p => uploadFileToFirestore entityObj st p.1 p.2) <$> picks in
  let st' := (foldl pool_event (uploads, st, w) evs).1.2 in
  (uploadPhotoMap st' = uploadPhotoMap st
   \/ exists name file b,
        (name, file) ∈ picks
        /\ uploadPhotoMap st'
           = assign_key name (createObjectURL b file) (uploadPhotoMap st))
  /\ (forall n1 n2, n1 <> n2 ->
        lookup_key n1 (uploadPhotoMap st) = None ->
        lookup_key n2 (uploadPhotoMap st) = None ->
        lookup_key n1 (uploadPhotoMap st') = None
        \/ lookup_key n2 (uploadPhotoMap st') = None)
  /\ editEntries st' = editEntries st
  /\ listFieldSize st' = listFieldSize st
  /\ checkboxFieldValue st' = checkboxFieldValue st.
Proof.
  cbn zeta.
  assert (H : one_result_kept st picks
                (foldl pool_event
                   ((fun p => uploadFileToFirestore entityObj st p.1 p.2) <$> picks,
                    st, w) evs).1.2).
  { apply (pool_events_started entityObj).
    - apply Forall_fmap, Forall_forall. intros [name file] Hin.
      exists name, file, NotSet. split; [assumption|reflexivity].
    - split; [now left|now repeat split]. }
  destruct H as (Hmap & H1 & H2 & H3).
  split; [exact Hmap|]. split; [|now repeat split].
  intros n1 n2 Hne Hn1 Hn2.
  destruct Hmap as [->|(name & file & b & _ & ->)]; [now left|].
  rewrite !lookup_assign_key.
  destruct (String.eqb_spec n1 name) as [->|]; [|now left].
  destruct (String.eqb_spec n2 name) as [->|]; [congruence|now right].
Qed.

Lemma foldl_progress_noop (st : FormState) (l : list nat) :
  foldl (fun s f => f s) st
    ((fun k => call_if_given (Some (fun (_ : Z) (st' : FormState) => st'))
                 (10 * Z.of_nat k)) <$> l) = st.
Proof. induction l as [|k l IH]; [reflexivity|exact IH]. Qed.

Lemma upload_result entityObj st name file st1 w evs :
  (foldl upload_event
     (reader_onload (uploadFileToFirestore entityObj st name file), st1, w) evs).1.2
  = match firings evs !! 9%nat with
    | Some b =>
        setUploadPhotoMap
          (assign_key name (createObjectURL b file) (uploadPhotoMap st)) st1
    | None => st1
    end.
Proof.
  destruct (upload_events_state (uploadFileToFirestore entityObj st name file) evs st1 w)
    as (w' & E & _).
  change (reader_onload (uploadFileToFirestore entityObj st name file))
    with (with_interval (Running 0) (uploadFileToFirestore entityObj st name file)).
  rewrite E. cbn [fst snd]. unfold expected_calls. rewrite foldl_app.
  cbn [onProgress uploadFileToFirestore uploadFile].
  rewrite foldl_progress_noop.
  destruct (firings evs !! 9%nat); reflexivity.
Qed.

(** Uploads made one after another are all kept: when each upload is
    started after the one before has completed, the photo map ends with,
    under every name, the object URL of the last file uploaded under that
    name, and what it had before under the other names. *)
Theorem uploads_in_turn_all_kept (entityObj : Props) (w : World) (st : FormState)
    (jobs : list (string * File.t * list UploadEvent)) :
  Forall (fun job => is_Some (firings job.2 !! 9%nat)) jobs ->
  let st' := foldl (upload_in_turn entityObj w) st jobs in
  forall name,
    lookup_key name (uploadPhotoMap st')
    = match last (filter (fun job => job.1.1 = name) jobs) with
      | Some job => (fun b => createObjectURL b job.1.2) <$> (firings job.2 !! 9%nat)
      | None => lookup_key name (uploadPhotoMap st)
      end.
Proof.
  induction jobs as [|[[n f] evs] jobs IH] using rev_ind; intros Hall; cbn zeta;
    intros name; [reflexivity|].
  apply Forall_app in Hall as [Hall Hj]. apply Forall_inv in Hj as [b Hb].
  cbn [fst snd] in Hb.
  rewrite foldl_snoc. unfold upload_in_turn at 1. cbn [fst snd].
  rewrite upload_result, Hb. cbn [uploadPhotoMap setUploadPhotoMap].
  rewrite lookup_assign_key, filter_app, filter_cons, filter_nil. cbn [fst snd].
  destruct (String.eqb_spec name n) as [->|Hne].
  - rewrite decide_True by reflexivity. rewrite last_snoc. cbn [fst snd].
    now rewrite Hb.
  - rewrite decide_False by congruence. rewrite app_nil_r. now apply IH.
Qed.

Lemma uploads_in_turn_all_kept_witness :
  let b := mkBrowser 7 "2024-01-01T00:00:00.000Z" (fun f => "blob:" ++ File.name f) in
  let evs := ReaderLoaded :: repeat (IntervalFired b) 10 in
  let st' := foldl (upload_in_turn [] empty_world) faq_form
               [("photo", File.mk "a.png" 10 "image/png", evs);
                ("logo", File.mk "b.png" 20 "image/png", evs)] in
  lookup_key "photo" (uploadPhotoMap st') = Some "blob:a.png"
  /\ lookup_key "logo" (uploadPhotoMap st') = Some "blob:b.png".
Proof.
  intros b evs.
  assert (H : Forall (fun job : string * File.t * list UploadEvent =>
                        is_Some (firings job.2 !! 9%nat))
                [("photo", File.mk "a.png" 10 "image/png", evs);
                 ("logo", File.mk "b.png" 20 "image/png", evs)]).
  { repeat constructor; exists b; reflexivity. }
  split.
  - exact (uploads_in_turn_all_kept [] empty_world faq_form _ H "photo").
  - exact (uploads_in_turn_all_kept [] empty_world faq_form _ H "logo").
Defined.

Lemma assign_key_keys k v m :
  (assign_key k v m).*1 = (if bool_decide (k ∈ m.*1) then m.*1 else m.*1 ++ [k])%list.
Proof.
  induction m as [|[k0 v0] m IH]; cbn.
  - reflexivity.
  - destruct (String.eqb_spec k k0) as [->|Hk]; cbn.
    + rewrite bool_decide_eq_true_2; [reflexivity|]. apply elem_of_cons. now left.
    + rewrite IH. destruct (bool_decide (k ∈ m.*1)) eqn:E.
      * apply bool_decide_eq_true_1 in E. rewrite bool_decide_eq_true_2; [reflexivity|].
        apply elem_of_cons. now right.
      * apply bool_decide_eq_false_1 in E. rewrite bool_decide_eq_false_2; [reflexivity|].
        intros [?|?]%elem_of_cons; congruence.
Qed.

Lemma upload_loop_plain st m ws :
  Forall (fun name => name ∈ updateTargets (editEntries st)) m.*1 ->
  for_each (upload_step st) m ws
  = (Next tt,
     with_entity (foldl (fun ent kv => assign_prop kv.1 (VStr kv.2) ent) (entity ws) m) ws).
Proof.
  revert ws. induction m as [|[k v] m IH]; intros ws Hall.
  - cbn. now destruct ws.
  - apply Forall_cons in Hall as [Hk Hall]. cbn [for_each foldl fst snd].
    unfold bind, upload_step at 1. cbn [fst snd].
    rewrite bool_decide_eq_true_2 by assumption. unfold write_attr at 1.
    rewrite IH by assumption. now destruct ws.
Qed.

Lemma lookup_foldl_assign_notin a (m : list (string * string)) ent :
  a ∉ m.*1 ->
  lookup_prop a (foldl (fun ent kv => assign_prop kv.1 (VStr kv.2) ent) ent m)
  = lookup_prop a ent.
Proof.
  revert ent. induction m as [|[k v] m IH]; intros ent Hn; [reflexivity|].
  cbn [foldl fst snd]. rewrite IH.
  - apply lookup_assign_other. intros ->. apply Hn. apply elem_of_cons. now left.
  - intros Hin. apply Hn. apply elem_of_cons. now right.
Qed.

Lemma lookup_foldl_assign a v (m : list (string * string)) ent :
  NoDup m.*1 -> lookup_key a m = Some v ->
  lookup_prop a (foldl (fun ent kv => assign_prop kv.1 (VStr kv.2) ent) ent m) = VStr v.
Proof.
  revert ent. induction m as [|[k x] m IH]; intros ent Hnd Hl; [discriminate|].
  cbn in Hnd. apply NoDup_cons in Hnd as [Hk Hnd]. cbn [foldl fst snd].
  cbn in Hl. destruct (String.eqb_spec a k) as [->|Hne].
  - injection Hl as ->. rewrite lookup_foldl_assign_notin by assumption.
    apply lookup_assign_same.
  - now apply IH.
Qed.

(** From the file input to the entity.  A picked file above 10090000
    bytes gives the toast and no upload.  Otherwise the first file is
    uploaded, and once the interval has fired ten times the photo map holds
    its object URL under the field's attribute; a submit then writes that
    URL to the attribute of the entity (in a form whose uploads all go to
    attributes of descriptors). *)
Theorem picked_photo_reaches_entity (entityObj : Props) (st : FormState)
    (e : EditEntry) (first : File.t) (rest : list File.t)
    (evs : list UploadEvent) (b : Browser) (w ws : World) :
  e ∈ editEntries st ->
  firings evs !! 9%nat = Some b ->
  NoDup (uploadPhotoMap st).*1 ->
  Forall (fun name => name ∈ updateTargets (editEntries st)) (uploadPhotoMap st).*1 ->
  if 10090000 <? File.size first then
    file_onChange entityObj st (attribute e) (first :: rest) w
    = (Next None, with_toast (ToastError "Please upload file under 10MB.") w)
  else
    exists u ws',
      file_onChange entityObj st (attribute e) (first :: rest) w = (Next (Some u), w)
      /\ let st' := (foldl upload_event (reader_onload u, st, w) evs).1.2 in
         lookup_key (attribute e) (uploadPhotoMap st') = Some (createObjectURL b first)
         /\ for_each (upload_step st') (uploadPhotoMap st') ws = (Next tt, ws')
         /\ lookup_prop (attribute e) (entity ws') = VStr (createObjectURL b first).
Proof.
  intros He Hb Hnd Hall. unfold file_onChange.
  destruct (10090000 <? File.size first); [reflexivity|].
  eexists _, _. split; [reflexivity|]. cbn zeta.
  rewrite upload_result, Hb.
  set (m := assign_key (attribute e) (createObjectURL b first) (uploadPhotoMap st)).
  cbn [uploadPhotoMap setUploadPhotoMap].
  assert (Hl : lookup_key (attribute e) m = Some (createObjectURL b first)).
  { unfold m. now rewrite lookup_assign_key, String.eqb_refl. }
  assert (Hin : attribute e ∈ updateTargets (editEntries st)).
  { unfold updateTargets. apply elem_of_list_to_set, list_elem_of_fmap.
    now exists e. }
  assert (Hkeys : NoDup m.*1
                  /\ Forall (fun name => name ∈ updateTargets (editEntries st)) m.*1).
  { unfold m. rewrite assign_key_keys.
    destruct (bool_decide (attribute e ∈ (uploadPhotoMap st).*1)) eqn:E; [now split|].
    apply bool_decide_eq_false_1 in E. split.
    - apply NoDup_app. split; [assumption|]. split; [|apply NoDup_singleton].
      intros x Hx Hx'. apply list_elem_of_singleton in Hx'. now subst.
    - apply Forall_app. split; [assumption|]. now apply Forall_singleton. }
  destruct Hkeys as [Hnd' Hall'].
  split; [exact Hl|]. split.
  - apply (upload_loop_plain (setUploadPhotoMap m st) m ws). exact Hall'.
  - cbn [entity with_entity]. now apply lookup_foldl_assign.
Qed.

Lemma picked_photo_reaches_entity_witness :
  let b := mkBrowser 7 "2024-01-01T00:00:00.000Z" (fun f => "blob:" ++ File.name f) in
  let e := mkEditEntry "photo" "Photo" ProfilePhoto false None VUndefined None in
  let st := mkFormState [e] [0%nat] false [] None in
  let first := File.mk "a.png" 2048 "image/png" in
  exists u ws',
    file_onChange [] st "photo" [first] empty_world = (Next (Some u), empty_world)
    /\ let st' := (foldl upload_event (reader_onload u, st, empty_world)
                     (repeat (IntervalFired b) 10)).1.2 in
       lookup_key "photo" (uploadPhotoMap st') = Some "blob:a.png"
       /\ for_each (upload_step st') (uploadPhotoMap st') empty_world = (Next tt, ws')
       /\ lookup_prop "photo" (entity ws') = VStr "blob:a.png".
Proof.
  intros b e st first.
  apply (picked_photo_reaches_entity [] st e first [] (repeat (IntervalFired b) 10) b
           empty_world empty_world).
  - now apply list_elem_of_singleton.
  - reflexivity.
  - apply NoDup_nil_2.
  - apply Forall_nil_2.
Defined.

End UploadFacts.
